(** * better-analytics ingestion API: a shallow embedding of
    [apps/api/src/index.ts] and the properties of its helpers and handlers.

    The embedding follows the TypeScript source function by function:
    JavaScript values are an inductive type, object literals are ordered
    association lists built with the in-place update that object spread
    performs, the module-level [translationCache] is a [gmap], and the
    handlers run in a small state-and-exception monad whose state holds
    [set.status], the cache, the wall clock and the list of collaborator
    calls made so far. *)

From Stdlib Require Import ZArith String Ascii List Bool Lia DecimalString.
From stdpp Require Import base gmap strings list.

Set Warnings "-register-all".
Open Scope string_scope.
Open Scope Z_scope.

(** ** JavaScript values *)

(** JSON-like values plus [undefined].  Numbers are the integers (the
    sources only use integer counts and millisecond clocks); objects keep
    their keys in insertion order. *)
Inductive JsVal : Type :=
| JUndefined
| JNull
| JBool (b : bool)
| JNum (n : Z)
| JStr (s : string)
| JArr (elems : list JsVal)
| JObj (fields : list (string * JsVal)).

Module Js.

(** Induction over values that reaches inside arrays and objects. *)
Section JsVal_nested_ind.
Variable P : JsVal -> Prop.
Hypothesis Hundefined : P JUndefined.
Hypothesis Hnull : P JNull.
Hypothesis Hbool : forall b, P (JBool b).
Hypothesis Hnum : forall n, P (JNum n).
Hypothesis Hstr : forall s, P (JStr s).
Hypothesis Harr : forall l, Forall P l -> P (JArr l).
Hypothesis Hobj : forall fs, Forall (fun kv => P (snd kv)) fs -> P (JObj fs).

Fixpoint JsVal_nested_ind (v : JsVal) : P v :=
  match v with
  | JUndefined => Hundefined
  | JNull => Hnull
  | JBool b => Hbool b
  | JNum n => Hnum n
  | JStr s => Hstr s
  | JArr l =>
      Harr l ((fix go (l : list JsVal) : Forall P l :=
                 match l with
                 | [] => List.Forall_nil P
                 | x :: r => List.Forall_cons P x r (JsVal_nested_ind x) (go r)
                 end) l)
  | JObj fs =>
      Hobj fs ((fix go (fs : list (string * JsVal))
                  : Forall (fun kv => P (snd kv)) fs :=
                  match fs with
                  | [] => List.Forall_nil _
                  | kv :: r =>
                      List.Forall_cons _ kv r (JsVal_nested_ind (snd kv)) (go r)
                  end) fs)
  end.
End JsVal_nested_ind.

(** [!v]: the falsy values are undefined, null, false, 0 and the empty
    string. *)
Definition truthy (v : JsVal) : bool :=
  match v with
  | JUndefined | JNull => false
  | JBool b => b
  | JNum n => negb (Z.eqb n 0)
  | JStr s => negb (String.eqb s "")
  | JArr _ | JObj _ => true
  end.

Definition nullish (v : JsVal) : bool :=
  match v with
  | JUndefined | JNull => true
  | _ => false
  end.

(** [v === undefined] *)
Definition is_undefined (v : JsVal) : bool :=
  match v with
  | JUndefined => true
  | _ => false
  end.

(** [a ?? b] and [a || b]. *)
Definition js_coalesce (a b : JsVal) : JsVal := if nullish a then b else a.
Definition js_or (a b : JsVal) : JsVal := if truthy a then a else b.

Fixpoint assoc (k : string) (fs : list (string * JsVal)) : option JsVal :=
  match fs with
  | [] => None
  | (k', v) :: r => if String.eqb k k' then Some v else assoc k r
  end.

(** [o.k] on a value that is not null or undefined: a missing property
    reads as [undefined].  Only used with property names that primitives
    and arrays do not carry. *)
Definition get_prop (o : JsVal) (k : string) : JsVal :=
  match o with
  | JObj fs => default JUndefined (assoc k fs)
  | _ => JUndefined
  end.

(** [o?.k] *)
Definition opt_chain (o : JsVal) (k : string) : JsVal :=
  if nullish o then JUndefined else get_prop o k.

(** Writing property [k] while an object literal is evaluated: a key that
    is already there keeps its position and takes the new value, a new key
    goes to the end. *)
Fixpoint obj_set (fs : list (string * JsVal)) (k : string) (v : JsVal)
  : list (string * JsVal) :=
  match fs with
  | [] => [(k, v)]
  | (k', v') :: r =>
      if String.eqb k k' then (k', v) :: r else (k', v') :: obj_set r k v
  end.

(** An object literal [{ k1: v1, ...spread, k2: v2 }], its properties and
    spread entries listed left to right. *)
Definition obj_literal (entries : list (string * JsVal)) : list (string * JsVal) :=
  fold_left (fun acc kv => obj_set acc (fst kv) (snd kv)) entries [].

(** [...o] inside an object literal: the own properties of an object,
    nothing for null and undefined.  (Request bodies are objects.) *)
Definition spread (o : JsVal) : list (string * JsVal) :=
  match o with
  | JObj fs => fs
  | _ => []
  end.

Definition keys (fs : list (string * JsVal)) : list string := map fst fs.

End Js.
Import Js.

(** ** Null sanitizer (index.ts, [replaceUndefinedWithNull]) *)

Fixpoint replaceUndefinedWithNull (obj : JsVal) : JsVal :=
  match obj with
  | JArr l => JArr (map replaceUndefinedWithNull l)
  | JObj fs =>
      JObj (map (fun kv =>
                   match kv with
                   | (k, v) =>
                       (k, if is_undefined v then JNull
                           else replaceUndefinedWithNull v)
                   end) fs)
  | _ => obj
  end.

(** Where [undefined] sits inside a value. *)
Fixpoint has_undefined (v : JsVal) : bool :=
  match v with
  | JUndefined => true
  | JArr l => existsb has_undefined l
  | JObj fs => existsb (fun kv => has_undefined (snd kv)) fs
  | _ => false
  end.

(** [undefined] as an array element, at any depth; the only places the
    sanitizer does not reach below the top level. *)
Fixpoint has_undefined_elem (v : JsVal) : bool :=
  match v with
  | JArr l =>
      existsb (fun x => match x with
                        | JUndefined => true
                        | _ => has_undefined_elem x
                        end) l
  | JObj fs => existsb (fun kv => has_undefined_elem (snd kv)) fs
  | _ => false
  end.

(** ** Strings of numbers, padding *)

(** [String(n)] for an integer. *)
Definition String_of (n : Z) : string := NilZero.string_of_int (Z.to_int n).

Fixpoint zeros (k : nat) : string :=
  match k with
  | O => ""
  | S k' => String "0" (zeros k')
  end.

(** [s.padStart(z, "0")]: nothing is added to a string that is already
    [z] long or longer. *)
Definition padStart0 (s : string) (z : nat) : string :=
  zeros (z - String.length s) +:+ s.

(** The local [pad] of [toCHDateTime64]; its default width is 2. *)
Definition pad (n : Z) (z : nat) : string := padStart0 (String_of n) z.

Fixpoint join (sep : string) (l : list string) : string :=
  match l with
  | [] => ""
  | [x] => x
  | x :: r => x +:+ sep +:+ join sep r
  end.

(** String conversion of a value inside a template literal. *)
Fixpoint ToString (v : JsVal) : string :=
  match v with
  | JUndefined => "undefined"
  | JNull => "null"
  | JBool true => "true"
  | JBool false => "false"
  | JNum n => String_of n
  | JStr s => s
  | JArr l =>
      join "," (map (fun x => if nullish x then "" else ToString x) l)
  | JObj _ => "[object Object]"
  end.

(** ** Dates *)

(** What the local-time getters of a valid [Date] return. *)
Record DateFields : Type := mkDate {
  getFullYear : Z;
  getMonth : Z;
  getDate : Z;
  getHours : Z;
  getMinutes : Z;
  getSeconds : Z;
  getMilliseconds : Z
}.

(** The ranges the getters of a valid [Date] stay in. *)
Definition date_in_range (d : DateFields) : Prop :=
  -271821 <= getFullYear d <= 275760 /\
  0 <= getMonth d <= 11 /\
  1 <= getDate d <= 31 /\
  0 <= getHours d <= 23 /\
  0 <= getMinutes d <= 59 /\
  0 <= getSeconds d <= 59 /\
  0 <= getMilliseconds d <= 999.

(** The argument of [toCHDateTime64], [Date | string | number | null |
    undefined]: a [Date] object (valid with its fields, or an Invalid
    Date) or a plain value. *)
Inductive DateArg : Type :=
| DDate (d : option DateFields)
| DVal (v : JsVal).

(** A [Date] object is truthy, also an invalid one. *)
Definition date_truthy (a : DateArg) : bool :=
  match a with
  | DDate _ => true
  | DVal v => truthy v
  end.

(** ** Collaborators and runtime *)

(** The calls that leave the process. *)
Inductive Event : Type :=
| Autumn_check (feature_id : string) (customer_id : JsVal)
| getGeoData (ip : JsVal)
| clickhouse_insert (table : string) (row : JsVal)
| channel_send (userId : JsVal) (event : string) (payload : JsVal)
| localizeText (key : JsVal) (sourceLocale targetLocale : JsVal)
| localizeObject (content : JsVal) (sourceLocale targetLocale : JsVal).

Inductive Result (A : Type) : Type :=
| Return (a : A)
| Throw (e : JsVal).
Arguments Return {A} a.
Arguments Throw {A} e.

(** An incoming request as the handlers see it: the parsed body, the
    [user-agent] header ([null] when absent) and the [userId] that the
    [derive] step attached. *)
Record Request : Type := mkRequest {
  body : JsVal;
  user_agent_header : JsVal;
  userId : JsVal
}.

(** Everything the handlers take from outside [index.ts]: what each
    outside call answers and how long it takes, and the library and
    runtime functions whose code is not in this file. *)
Record Env : Type := mkEnv {
  respond : Event -> Result JsVal;
  latency : Event -> Z;
  randomUUID : JsVal;
  UAParser : JsVal -> JsVal;
  extractIpFromRequest : Request -> JsVal;
  parseDomain : JsVal -> JsVal;
  JSON_stringify : JsVal -> JsVal;
  (* [new Date(v)] for a string or number [v], read in local time;
     [None] is an Invalid Date *)
  Date_parse : JsVal -> option DateFields;
  (* the local-time fields of the instant [t] (ms since the epoch) *)
  localtime : Z -> DateFields
}.

(** ** Timestamp normalizer (index.ts, [toCHDateTime64]) *)

(** [new Date(date)] *)
Definition new_Date (env : Env) (date : DateArg) : option DateFields :=
  match date with
  | DDate d => d
  | DVal v => Date_parse env v
  end.

Definition toCHDateTime64 (env : Env) (date : DateArg) : JsVal :=
  if negb (date_truthy date) then JNull
  else
    match new_Date env date with
    | None => JNull
    | Some d =>
        JStr (String_of (getFullYear d) +:+ "-" +:+ pad (getMonth d + 1) 2
              +:+ "-" +:+ pad (getDate d) 2
              +:+ " " +:+ pad (getHours d) 2
              +:+ ":" +:+ pad (getMinutes d) 2
              +:+ ":" +:+ pad (getSeconds d) 2
              +:+ "." +:+ pad (getMilliseconds d) 3)
    end.

(** Everything after the year, as [toCHDateTime64] lays it out. *)
Definition after_year (d : DateFields) : string :=
  "-" +:+ pad (getMonth d + 1) 2 +:+ "-" +:+ pad (getDate d) 2
  +:+ " " +:+ pad (getHours d) 2 +:+ ":" +:+ pad (getMinutes d) 2
  +:+ ":" +:+ pad (getSeconds d) 2 +:+ "." +:+ pad (getMilliseconds d) 3.

(** The wire format [YYYY-MM-DD HH:MM:SS.mmm]: 23 characters, digits
    everywhere but at the six separators. *)
Definition is_digit (c : ascii) : bool :=
  let n := nat_of_ascii c in (48 <=? n)%nat && (n <=? 57)%nat.

(** [has_shape pat s]: [s] has the length of [pat], a digit wherever
    [pat] has a 9 and the character of [pat] elsewhere. *)
Fixpoint has_shape (pat s : string) : bool :=
  match pat, s with
  | EmptyString, EmptyString => true
  | String p pat', String c s' =>
      (if Ascii.eqb p "9" then is_digit c else Ascii.eqb p c)
        && has_shape pat' s'
  | _, _ => false
  end.

Definition is_CH_DateTime64 (s : string) : bool :=
  has_shape "9999-99-99 99:99:99.999" s.

(** ** Translation cache (index.ts, lines 20-47) *)

Record CacheEntry : Type := mkEntry {
  result : JsVal;
  timestamp : Z
}.

Definition CACHE_DURATION : Z := 5 * 60 * 1000.

Definition getCacheKey (env : Env) (content sourceLocale targetLocale : JsVal)
  : string :=
  let contentStr :=
    match content with
    | JStr _ => content
    | _ => JSON_stringify env content
    end in
  ToString contentStr +:+ "-" +:+ ToString sourceLocale
    +:+ "-" +:+ ToString targetLocale.

(** ** The handler monad *)

(** [set.status] of the request being served, the process-wide
    [translationCache], the wall clock ([Date.now()]) and the outside
    calls made so far, oldest first. *)
Record St : Type := mkSt {
  set_status : Z;
  translationCache : gmap string CacheEntry;
  clock : Z;
  calls : list Event
}.

Definition M (A : Type) : Type := St -> Result A * St.

Definition ret {A} (a : A) : M A := fun st => (Return a, st).

Definition throw {A} (e : JsVal) : M A := fun st => (Throw e, st).

Definition bind {A B} (m : M A) (k : A -> M B) : M B :=
  fun st =>
    match m st with
    | (Return a, st') => k a st'
    | (Throw e, st') => (Throw e, st')
    end.

(** [try { m } catch (error) { h error }]: what [m] did to the state
    before it threw stays done. *)
Definition try_catch {A} (m : M A) (h : JsVal -> M A) : M A :=
  fun st =>
    match m st with
    | (Throw e, st') => h e st'
    | r => r
    end.

Notation "'do' x <- m ; k" := (bind m (fun x => k))
  (at level 10, x name, m at level 100, k at level 200).
Notation "'run' m ; k" := (bind m (fun _ => k))
  (at level 10, m at level 100, k at level 200).

(** [set.status = code] *)
Definition assign_status (code : Z) : M unit :=
  fun st => (Return tt, mkSt code (translationCache st) (clock st) (calls st)).

(** [await] of an outside call: it is recorded, time passes, and the
    collaborator answers or throws. *)
Definition await (env : Env) (e : Event) : M JsVal :=
  fun st =>
    (respond env e,
     mkSt (set_status st) (translationCache st)
          (clock st + latency env e) (calls st ++ [e])).

(** [Date.now()] *)
Definition Date_now : M Z := fun st => (Return (clock st), st).

(** [new Date()] *)
Definition new_Date_now (env : Env) : M DateArg :=
  fun st => (Return (DDate (Some (localtime env (clock st)))), st).

Definition getCachedResult (cacheKey : string) : M JsVal :=
  fun st =>
    match translationCache st !! cacheKey with
    | Some cached =>
        if clock st - timestamp cached <? CACHE_DURATION
        then (Return (result cached), st)
        else (Return JNull,
              mkSt (set_status st) (delete cacheKey (translationCache st))
                   (clock st) (calls st))
    | None => (Return JNull, st)
    end.

Definition setCachedResult (cacheKey : string) (res : JsVal) : M unit :=
  fun st =>
    (Return tt,
     mkSt (set_status st)
          (<[cacheKey := mkEntry res (clock st)]> (translationCache st))
          (clock st) (calls st)).

(** A [TypeError] thrown by the runtime, e.g. on destructuring [null]. *)
Definition TypeError : JsVal := JObj [("name", JStr "TypeError")].

(** ** Quota gate (index.ts, [checkQuota]) *)

Definition checkQuota (env : Env) (feature_id : string) (customer_id : JsVal)
  : M JsVal :=
  try_catch
    (do resp <- await env (Autumn_check feature_id customer_id);
     (* const { data } = resp *)
     if nullish resp then throw TypeError
     else
       let data := get_prop resp "data" in
       ret (js_coalesce (opt_chain data "allowed") (JBool false)))
    (fun error => ret (JBool true)).

(** [sendRealTimeEvent]: a failed broadcast is caught and dropped. *)
Definition sendRealTimeEvent (env : Env) (userId : JsVal) (event : string)
           (payload : JsVal) : M unit :=
  try_catch
    (run await env (channel_send userId event payload); ret tt)
    (fun error => ret tt).

(** ** Handlers (index.ts, the [.post] routes) *)

Definition quota_exceeded (what : string) : JsVal :=
  JObj [("status", JStr "error");
        ("message", JStr ("Quota exceeded for " +:+ what +:+ "."))].

Definition success (id : JsVal) : JsVal :=
  JObj [("status", JStr "success"); ("id", id)].

Definition failure (message : string) : JsVal :=
  JObj [("status", JStr "error"); ("message", JStr message)].

(** The properties that the object literal [errorData] of [POST /ingest]
    writes after [...body], in the order of the source. *)
Definition errorData_after_body (env : Env) (request : Request) (geo : JsVal)
           (now : DateArg) : list (string * JsVal) :=
  let body := body request in
  let userAgent := js_or (user_agent_header request) (JStr "") in
  let uaResult := UAParser env userAgent in
  let ip := extractIpFromRequest env request in
  let domainInfo :=
    if truthy (get_prop body "url") then parseDomain env (get_prop body "url")
    else JNull in
  [("tags", js_coalesce (get_prop body "tags") (JArr []));
   ("occurrence_count",
    js_coalesce (get_prop body "occurrence_count") (JNum 1));
   ("source", js_or (get_prop body "source") (opt_chain domainInfo "domain"));
   ("user_agent", userAgent);
   ("browser_name",
    js_coalesce (get_prop body "browser_name")
                (get_prop (get_prop uaResult "browser") "name"));
   ("browser_version",
    js_coalesce (get_prop body "browser_version")
                (get_prop (get_prop uaResult "browser") "version"));
   ("os_name",
    js_coalesce (get_prop body "os_name")
                (get_prop (get_prop uaResult "os") "name"));
   ("os_version",
    js_coalesce (get_prop body "os_version")
                (get_prop (get_prop uaResult "os") "version"));
   ("device_type",
    js_coalesce
      (js_coalesce (get_prop body "device_type")
                   (get_prop (get_prop uaResult "device") "type"))
      (JStr "desktop"));
   ("ip_address", ip);
   ("country", get_prop geo "country");
   ("region", get_prop geo "region");
   ("city", get_prop geo "city");
   ("org", get_prop geo "org");
   ("postal", get_prop geo "postal");
   ("loc", get_prop geo "loc");
   ("first_occurrence",
    js_or (toCHDateTime64 env (DVal (get_prop body "first_occurrence")))
          (toCHDateTime64 env now));
   ("last_occurrence",
    js_or (toCHDateTime64 env (DVal (get_prop body "last_occurrence")))
          (toCHDateTime64 env now));
   ("resolved_at", toCHDateTime64 env (DVal (get_prop body "resolved_at")));
   ("created_at", toCHDateTime64 env now);
   ("updated_at", toCHDateTime64 env now)].

(** The object literal [errorData]:
    [{ id: randomUUID(), ...body, tags: ..., ..., updated_at: ... }]. *)
Definition errorData (env : Env) (request : Request) (geo : JsVal)
           (now : DateArg) : JsVal :=
  JObj (obj_literal
    ([("id", randomUUID env)]
     ++ spread (body request)
     ++ errorData_after_body env request geo now)).

(** The payload of the [error_ingested] broadcast. *)
Definition error_ingested_payload (d : JsVal) : JsVal :=
  JObj (obj_literal
    (map (fun k => (k, get_prop d k))
         ["id"; "message"; "severity"; "error_type"; "source"; "client_id";
          "created_at"; "url"; "browser_name"; "os_name"; "device_type";
          "country"; "city"])).

Definition ingest (env : Env) (request : Request) : M JsVal :=
  do isAllowed <- checkQuota env "error" (get_prop (body request) "client_id");
  if negb (truthy isAllowed) then
    run assign_status 429;
    ret (quota_exceeded "error ingestion")
  else
    do geo <- await env (getGeoData (extractIpFromRequest env request));
    do now <- new_Date_now env;
    (* [geo.country] on null or undefined throws *)
    if nullish geo then throw TypeError
    else
      let sanitizedErrorData :=
        replaceUndefinedWithNull (errorData env request geo now) in
      try_catch
        (run await env (clickhouse_insert "errors" sanitizedErrorData);
         run (if truthy (userId request)
              then sendRealTimeEvent env (userId request) "error_ingested"
                     (error_ingested_payload sanitizedErrorData)
              else ret tt);
         ret (success (get_prop sanitizedErrorData "id")))
        (fun error => ret (failure "Failed to process error")).

(** The object literal [logData] of [POST /log]. *)
Definition logData (env : Env) (request : Request) (now : DateArg) : JsVal :=
  JObj (obj_literal
    ([("id", randomUUID env)]
     ++ spread (body request)
     ++ [("created_at", toCHDateTime64 env now)])).

Definition log_ingested_payload (d : JsVal) : JsVal :=
  JObj (obj_literal
    (map (fun k => (k, get_prop d k))
         ["id"; "message"; "level"; "source"; "client_id"; "created_at";
          "context"; "environment"; "session_id"; "user_id"])).

Definition log (env : Env) (request : Request) : M JsVal :=
  do isAllowed <- checkQuota env "log" (get_prop (body request) "client_id");
  if negb (truthy isAllowed) then
    run assign_status 429;
    ret (quota_exceeded "log ingestion")
  else
    do now <- new_Date_now env;
    let logData := logData env request now in
    try_catch
      (run await env (clickhouse_insert "logs" logData);
       run (if truthy (userId request)
            then sendRealTimeEvent env (userId request) "log_ingested"
                   (log_ingested_payload logData)
            else ret tt);
       run sendRealTimeEvent env (get_prop (body request) "client_id")
             "new-log" logData;
       ret (success (get_prop logData "id")))
      (fun error => ret (failure "Failed to process log")).

(** The object literal [data] of [POST /track-404]. *)
Definition notFoundData (env : Env) (request : Request) (geo : JsVal)
           (now : DateArg) : JsVal :=
  JObj (obj_literal
    ([("id", randomUUID env)]
     ++ spread (body request)
     ++ [("user_agent", js_or (user_agent_header request) (JStr ""));
         ("ip_address", extractIpFromRequest env request);
         ("country", get_prop geo "country");
         ("region", get_prop geo "region");
         ("city", get_prop geo "city");
         ("created_at", toCHDateTime64 env now)])).

Definition track_404 (env : Env) (request : Request) : M JsVal :=
  do isAllowed <- checkQuota env "404_page_tracking"
                    (get_prop (body request) "client_id");
  if negb (truthy isAllowed) then
    run assign_status 429;
    ret (quota_exceeded "404 tracking")
  else
    do geo <- await env (getGeoData (extractIpFromRequest env request));
    if nullish geo then throw TypeError
    else
      do now <- new_Date_now env;
      let data := notFoundData env request geo now in
      let cleanedData := replaceUndefinedWithNull data in
      run await env (clickhouse_insert "not_found_pages" cleanedData);
      run sendRealTimeEvent env (get_prop (body request) "client_id")
            "new-404" cleanedData;
      ret (success (get_prop data "id")).

(** A destructuring default, [{ k = d } = o]: only [undefined] takes the
    default. *)
Definition prop_default (o : JsVal) (k : string) (d : JsVal) : JsVal :=
  if is_undefined (get_prop o k) then d else get_prop o k.

(** [typeof v === "object"] *)
Definition typeof_object (v : JsVal) : bool :=
  match v with
  | JNull | JArr _ | JObj _ => true
  | _ => false
  end.

Definition localization (env : Env) (request : Request) : M JsVal :=
  try_catch
    (let body := body request in
     if nullish body then throw TypeError
     else
       let key := get_prop body "key" in
       let language := prop_default body "language" (JStr "en") in
       if negb (truthy key) then
         run assign_status 400;
         ret (JObj [("error", JStr "Key is required")])
       else
         let cacheKey :=
           getCacheKey env key (JStr "en") (js_or language (JStr "en")) in
         do cachedResult <- getCachedResult cacheKey;
         if truthy cachedResult then ret (JObj [("result", cachedResult)])
         else
           do result <- await env (localizeText key (JStr "en")
                                     (js_or language (JStr "en")));
           run setCachedResult cacheKey result;
           ret (JObj [("result", result)]))
    (fun error =>
       run assign_status 500;
       ret (JObj [("error", JStr "Translation failed")])).

Definition localization_object (env : Env) (request : Request) : M JsVal :=
  try_catch
    (let body := body request in
     if nullish body then throw TypeError
     else
       let content := get_prop body "content" in
       let sourceLocale := prop_default body "sourceLocale" (JStr "en") in
       let targetLocale := prop_default body "targetLocale" (JStr "en") in
       if negb (truthy content) || negb (typeof_object content) then
         run assign_status 400;
         ret (JObj [("error", JStr "Content object is required")])
       else
         let cacheKey := getCacheKey env content sourceLocale targetLocale in
         do cachedResult <- getCachedResult cacheKey;
         if truthy cachedResult then ret (JObj [("result", cachedResult)])
         else
           do result <- await env (localizeObject content sourceLocale
                                     (JStr "ar"));
           run setCachedResult cacheKey result;
           ret (JObj [("result", result)]))
    (fun error =>
       run assign_status 500;
       ret (JObj [("error", JStr "Object translation failed")])).

(** ** Observations on a run *)

(** The rows handed to the event store, in order. *)
Definition inserted (evs : list Event) : list (string * JsVal) :=
  omap (fun e => match e with
                 | clickhouse_insert t row => Some (t, row)
                 | _ => None
                 end) evs.

(** The calls to the translation service. *)
Definition is_translation (e : Event) : bool :=
  match e with
  | localizeText _ _ _ | localizeObject _ _ _ => true
  | _ => false
  end.

Definition translations (evs : list Event) : list Event :=
  List.filter is_translation evs.

(** A request is served with an empty call record; Elysia starts every
    request with [set.status] at its default, given here as [status0]. *)
Definition serve (h : M JsVal) (status0 : Z)
           (cache : gmap string CacheEntry) (now : Z) : Result JsVal * St :=
  h (mkSt status0 cache now []).

(** The state after an outside call [e] made in state [st]. *)
Definition after_call (env : Env) (e : Event) (st : St) : St :=
  mkSt (set_status st) (translationCache st) (clock st + latency env e)
       (calls st ++ [e]).

(** What [checkQuota] makes of the entitlement service's answer. *)
Definition quota_answer (r : Result JsVal) : JsVal :=
  match r with
  | Throw _ => JBool true
  | Return resp =>
      if nullish resp then JBool true
      else js_coalesce (opt_chain (get_prop resp "data") "allowed")
                       (JBool false)
  end.

(** A run of handler [h] from [st] that ends in the 429 rejection [what]
    with the quota check as its only outside call, so that nothing was
    handed to the event store. *)
Definition rejected_with (h : M JsVal) (st : St) (check : Event)
           (what : string) : Prop :=
  fst (h st) = Return (quota_exceeded what)
  /\ set_status (snd (h st)) = 429
  /\ calls (snd (h st)) = (calls st ++ [check])%list
  /\ inserted (calls (snd (h st))) = inserted (calls st).

(** The quota check and the geo lookup of a request. *)
Definition quota_check (feature_id : string) (request : Request) : Event :=
  Autumn_check feature_id (get_prop (body request) "client_id").

Definition geo_lookup (env : Env) (request : Request) : Event :=
  getGeoData (extractIpFromRequest env request).

(** [new Date()] read in state [st]. *)
Definition now_in (env : Env) (st : St) : DateArg :=
  DDate (Some (localtime env (clock st))).

(** The instant at which each ingestion handler reads the clock: after
    the quota check, and after the geo lookup where there is one. *)
Definition ingest_now (env : Env) (request : Request) (st : St) : DateArg :=
  now_in env (after_call env (geo_lookup env request)
                (after_call env (quota_check "error" request) st)).

Definition log_now (env : Env) (request : Request) (st : St) : DateArg :=
  now_in env (after_call env (quota_check "log" request) st).

Definition track_404_now (env : Env) (request : Request) (st : St) : DateArg :=
  now_in env (after_call env (geo_lookup env request)
                (after_call env (quota_check "404_page_tracking" request) st)).

(** What the sanitizer makes of the value of an object property. *)
Definition sanitized_prop (v : JsVal) : JsVal :=
  if is_undefined v then JNull else replaceUndefinedWithNull v.

(** The rule [body.k ?? derived] as seen in the stored row: a value of the
    body that is not null or undefined is kept, otherwise the derived
    value is stored. *)
Definition kept_or_derived (from_body derived stored : JsVal) : Prop :=
  (nullish from_body = false ->
   stored = replaceUndefinedWithNull from_body
   /\ (has_undefined from_body = false -> stored = from_body))
  /\ (nullish from_body = true -> stored = sanitized_prop derived).

(** The user-agent parse of a request. *)
Definition uaResult (env : Env) (request : Request) : JsVal :=
  UAParser env (js_or (user_agent_header request) (JStr "")).

(** The age of a cache entry at the time of state [st]. *)
Definition age (st : St) (e : CacheEntry) : Z := clock st - timestamp e.

(** ** Further parts of the API *)

(** [w] is [v] with some [undefined] replaced by [null] and nothing else
    changed: same nesting, same keys in the same order, same array
    lengths, every other leaf as it was. *)
Inductive undefined_to_null : JsVal -> JsVal -> Prop :=
| u2n_same v : undefined_to_null v v
| u2n_null : undefined_to_null JUndefined JNull
| u2n_arr l l' :
    Forall2 undefined_to_null l l' -> undefined_to_null (JArr l) (JArr l')
| u2n_obj fs fs' :
    Forall2 (fun a b => fst a = fst b /\ undefined_to_null (snd a) (snd b))
            fs fs' ->
    undefined_to_null (JObj fs) (JObj fs').

(** Time passing between two requests. *)
Definition elapse (d : Z) (st : St) : St :=
  mkSt (set_status st) (translationCache st) (clock st + d) (calls st).

(** What a cache lookup returns (it never throws). *)
Definition lookup_value (cacheKey : string) (st : St) : JsVal :=
  match fst (getCachedResult cacheKey st) with
  | Return v => v
  | Throw _ => JNull
  end.

(** The target language, cache key and translator call of a
    [POST /localization] request. *)
Definition text_language (request : Request) : JsVal :=
  js_or (prop_default (body request) "language" (JStr "en")) (JStr "en").

Definition text_cacheKey (env : Env) (request : Request) : string :=
  getCacheKey env (get_prop (body request) "key") (JStr "en")
              (text_language request).

Definition text_call (request : Request) : Event :=
  localizeText (get_prop (body request) "key") (JStr "en")
               (text_language request).

(** The cache key and translator call of a [POST /localization/object]
    request. *)
Definition object_cacheKey (env : Env) (request : Request) : string :=
  getCacheKey env (get_prop (body request) "content")
              (prop_default (body request) "sourceLocale" (JStr "en"))
              (prop_default (body request) "targetLocale" (JStr "en")).

Definition object_call (request : Request) : Event :=
  localizeObject (get_prop (body request) "content")
                 (prop_default (body request) "sourceLocale" (JStr "en"))
                 (JStr "ar").

Definition is_broadcast (e : Event) : bool :=
  match e with
  | channel_send _ _ _ => true
  | _ => false
  end.

(** The deployment [env] with every broadcast answered by [r]. *)
Definition with_broadcast (r : Result JsVal) (env : Env) : Env :=
  mkEnv (fun e => if is_broadcast e then r else respond env e)
        (latency env) (randomUUID env) (UAParser env)
        (extractIpFromRequest env) (parseDomain env) (JSON_stringify env)
        (Date_parse env) (localtime env).

(** The serialized content that [getCacheKey] puts in front of the two
    locale codes. *)
Definition contentStr (env : Env) (content : JsVal) : string :=
  ToString (match content with
            | JStr _ => content
            | _ => JSON_stringify env content
            end).

(** No hyphen in the string. *)
Fixpoint dash_free (s : string) : bool :=
  match s with
  | EmptyString => true
  | String c r => negb (Ascii.eqb c "-") && dash_free r
  end.

(** No property of the object is [undefined]. *)
Definition fields_defined (row : JsVal) : bool :=
  match row with
  | JObj fs => forallb (fun kv => negb (is_undefined (snd kv))) fs
  | _ => true
  end.

(** The property names of an object, in order. *)
Definition row_keys (row : JsVal) : list string :=
  match row with
  | JObj fs => keys fs
  | _ => []
  end.

(** The deployment [env] with every geo lookup answered by [r]. *)
Definition with_geo (r : Result JsVal) (env : Env) : Env :=
  mkEnv (fun e => match e with
                  | getGeoData _ => r
                  | _ => respond env e
                  end)
        (latency env) (randomUUID env) (UAParser env)
        (extractIpFromRequest env) (parseDomain env) (JSON_stringify env)
        (Date_parse env) (localtime env).

(** Two runs with the same response, the same [set.status] and the same
    rows handed to the store. *)
Definition same_outcome (a b : Result JsVal * St) : Prop :=
  fst a = fst b
  /\ set_status (snd a) = set_status (snd b)
  /\ inserted (calls (snd a)) = inserted (calls (snd b)).

(** The properties that [errorData] writes after [...body], whatever the
    body holds. *)
Definition ingest_rewritten_keys : list string :=
  ["tags"; "occurrence_count"; "source"; "user_agent"; "browser_name";
   "browser_version"; "os_name"; "os_version"; "device_type"; "ip_address";
   "country"; "region"; "city"; "org"; "postal"; "loc"; "first_occurrence";
   "last_occurrence"; "resolved_at"; "created_at"; "updated_at"].

(** ** Authentication (index.ts, the [.derive] step, lines 117-162) *)

(** What [derive] reads of a request: the path of its URL, its method,
    the [Authorization] header as [headers.get] returns it ([None] when
    absent, otherwise the value without leading or trailing white space)
    and the parsed body. *)
Record AuthRequest : Type := mkAuthRequest {
  pathname : string;
  method : string;
  authorization : option string;
  auth_body : JsVal
}.

(** [s.substring(n)] *)
Definition substring_from (n : nat) (s : string) : string :=
  String.substring n (String.length s - n) s.

(** The access token of a request: what follows ["Bearer "] in the
    header, otherwise [body?.accessToken]. *)
Definition accessToken (request : AuthRequest) : JsVal :=
  match authorization request with
  | Some authHeader =>
      if String.prefix "Bearer " authHeader
      then JStr (substring_from 7 authHeader)
      else opt_chain (auth_body request) "accessToken"
  | None => opt_chain (auth_body request) "accessToken"
  end.

Definition is_public (request : AuthRequest) : bool :=
  String.eqb (pathname request) "/"
  || String.eqb (pathname request) "/localization"
  || String.eqb (pathname request) "/localization/object"
  || String.eqb (pathname request) "/api/localization"
  || String.eqb (pathname request) "/api/localization/object"
  || String.eqb (method request) "OPTIONS".

(** [derive]: the [userId] it attaches, and the access tokens it looked up
    in the user table.  [findFirst token] is the answer of
    [db.query.user.findFirst] for that token: the row found (or
    [undefined]), or a thrown error. *)
Definition derive (findFirst : JsVal -> Result JsVal) (request : AuthRequest)
  : JsVal * list JsVal :=
  if is_public request then (JNull, [])
  else
    let accessToken := accessToken request in
    if negb (truthy accessToken) then (JNull, [])
    else
      match findFirst accessToken with
      | Return userExists =>
          (js_or (opt_chain userExists "id") JNull, [accessToken])
      | Throw error => (JNull, [accessToken])
      end.

(** ** Error mapping (index.ts, [.onError], lines 424-441) *)

(** [s.includes(needle)] on strings. *)
Fixpoint contains (needle s : string) : bool :=
  String.prefix needle s
  || match s with
     | EmptyString => false
     | String _ r => contains needle r
     end.

(** [v.includes(needle)]: substring search on a string, membership in an
    array; other values have no [includes] and the call throws. *)
Definition includes (v : JsVal) (needle : string) : Result bool :=
  match v with
  | JStr s => Return (contains needle s)
  | JArr l =>
      Return (existsb (fun x => match x with
                                | JStr s => String.eqb s needle
                                | _ => false
                                end) l)
  | _ => Throw TypeError
  end.

Definition internal_error : JsVal :=
  JObj [("status", JStr "error");
        ("message", JStr "An internal error occurred.")].

Definition onError (error : JsVal) : M JsVal :=
  let errorMessage :=
    js_or (opt_chain error "message") (JStr "An unknown error occurred") in
  match includes errorMessage "Unauthorized" with
  | Throw e => throw e
  | Return true =>
      run assign_status 401;
      ret (JObj [("status", JStr "error"); ("message", errorMessage)])
  | Return false =>
      run assign_status 500;
      ret internal_error
  end.

(** ** Query client (the React Query helper, [getQueryClient]) *)

(** Query clients are told apart by the order in which they were made. *)
Record ClientState : Type := mkClientState {
  browserQueryClient : option nat;
  made : nat
}.

Definition makeQueryClient (s : ClientState) : nat * ClientState :=
  (made s, mkClientState (browserQueryClient s) (S (made s))).

Definition getQueryClient (isServer : bool) (s : ClientState)
  : nat * ClientState :=
  if isServer then makeQueryClient s
  else
    match browserQueryClient s with
    | Some client => (client, s)
    | None =>
        let (client, s') := makeQueryClient s in
        (client, mkClientState (Some client) (made s'))
    end.

(** [n] calls of [getQueryClient] in a row: the clients returned, oldest
    first, and the state afterwards. *)
Fixpoint getQueryClient_times (isServer : bool) (n : nat) (s : ClientState)
  : list nat * ClientState :=
  match n with
  | O => ([], s)
  | S n' =>
      let (c, s1) := getQueryClient isServer s in
      let (cs, s2) := getQueryClient_times isServer n' s1 in
      (c :: cs, s2)
  end.

(** ** A sample deployment, for running the handlers on concrete requests *)

Module Sample.

(** Local time of a server whose time zone is UTC: civil date from the
    day count, time of day from the remainder. *)
Definition utc_fields (t : Z) : DateFields :=
  let days := t / 86400000 in
  let ms := t mod 86400000 in
  let z := days + 719468 in
  let era := z / 146097 in
  let doe := z - era * 146097 in
  let yoe := (doe - doe / 1460 + doe / 36524 - doe / 146096) / 365 in
  let doy := doe - (365 * yoe + yoe / 4 - yoe / 100) in
  let mp := (5 * doy + 2) / 153 in
  let d := doy - (153 * mp + 2) / 5 + 1 in
  let m := if mp <? 10 then mp + 3 else mp - 9 in
  let y := yoe + era * 400 + (if m <=? 2 then 1 else 0) in
  mkDate y (m - 1) d (ms / 3600000) (ms / 60000 mod 60) (ms / 1000 mod 60)
         (ms mod 1000).

(** The entitlement service answers what [quota] says, the event store
    what [store] says, the translation service returns [translated];
    every call takes [lat] ms. *)
Definition env (quota store : Result JsVal)
           (translated : JsVal -> JsVal -> JsVal -> Result JsVal) (lat : Z)
  : Env :=
  mkEnv
    (fun e =>
       match e with
       | Autumn_check _ _ => quota
       | getGeoData _ =>
           Return (JObj [("country", JStr "NL"); ("city", JStr "Utrecht")])
       | clickhouse_insert _ _ => store
       | channel_send _ _ _ => Return JUndefined
       | localizeText c src tgt | localizeObject c src tgt =>
           translated c src tgt
       end)
    (fun _ => lat)
    (JStr "7c9e6679-7425-40de-944b-e07fc1f90ae7")
    (fun ua => JObj [("browser", JObj [("name", JStr "Firefox")]);
                     ("os", JObj []); ("device", JObj [])])
    (fun _ => JStr "203.0.113.7")
    (fun _ => JObj [("domain", JStr "example.com")])
    (fun v => JStr ("json:" +:+ ToString v))
    (fun v => match v with
              | JNum t => Some (utc_fields t)
              | _ => None
              end)
    utc_fields.

Definition allowed : Result JsVal :=
  Return (JObj [("data", JObj [("allowed", JBool true)])]).

Definition denied : Result JsVal :=
  Return (JObj [("data", JObj [("allowed", JBool false)])]).

Definition ok : Result JsVal := Return JUndefined.

(** A translator that only reports the locales it was asked for. *)
Definition echo (content sourceLocale targetLocale : JsVal) : Result JsVal :=
  Return (JStr (ToString sourceLocale +:+ ">" +:+ ToString targetLocale)).

Definition down : Result JsVal :=
  Throw (JObj [("message", JStr "connect ECONNREFUSED")]).

(** 2024-01-02T03:04:05.006Z *)
Definition t0 : Z := 1704164645006.

End Sample.

(** * Properties *)

(** ** The null sanitizer *)

Section Sanitizer.

Lemma is_undefined_spec v : is_undefined v = true <-> v = JUndefined.
Proof. destruct v; simpl; split; congruence. Qed.

(** Arrays keep their length. *)
Lemma sanitize_array_length l l' :
  replaceUndefinedWithNull (JArr l) = JArr l' -> length l' = length l.
Proof. simpl. intros [= <-]. apply length_map. Qed.

(** Objects keep their keys, in order. *)
Lemma sanitize_object_keys fs :
  exists fs', replaceUndefinedWithNull (JObj fs) = JObj fs' /\ keys fs' = keys fs.
Proof.
  eexists; split; [reflexivity|].
  unfold keys. rewrite map_map. apply map_ext. intros [k v]; reflexivity.
Qed.

(** Property reads commute with the sanitizer: an undefined value reads as
    null afterwards, any other value as its sanitized self. *)
Lemma assoc_sanitize k fs :
  assoc k (map (fun kv => match kv with
                          | (k, v) => (k, if is_undefined v then JNull
                                          else replaceUndefinedWithNull v)
                          end) fs)
  = (fun v => if is_undefined v then JNull else replaceUndefinedWithNull v)
      <$> assoc k fs.
Proof.
  induction fs as [|[k' v] r IH]; simpl; [reflexivity|].
  destruct (String.eqb k k'); [reflexivity | exact IH].
Qed.

(** A value without any [undefined] in it is returned as it is. *)
Lemma sanitize_defined_id v :
  has_undefined v = false -> replaceUndefinedWithNull v = v.
Proof.
  induction v as [| | | | |l IH|fs IH] using JsVal_nested_ind;
    simpl; intros H; try reflexivity.
  - f_equal. induction IH as [|x r Hx _ IHr]; simpl in *; [reflexivity|].
    apply orb_false_elim in H as [H1 H2]. f_equal; auto.
  - f_equal. induction IH as [|[k x] r Hx _ IHr]; simpl in *; [reflexivity|].
    apply orb_false_elim in H as [H1 H2]. f_equal; auto.
    destruct x; simpl in *; try discriminate; f_equal; auto.
Qed.

(** What is left undefined after sanitizing: the value itself when it was
    [undefined], and the undefined array elements. *)
Lemma sanitize_leftover v :
  has_undefined (replaceUndefinedWithNull v)
  = is_undefined v || has_undefined_elem v.
Proof.
  induction v as [| | | | |l IH|fs IH] using JsVal_nested_ind;
    simpl; try reflexivity.
  - induction IH as [|x r Hx _ IHr]; simpl; [reflexivity|].
    rewrite Hx, IHr. f_equal. destruct x; reflexivity.
  - induction IH as [|[k x] r Hx _ IHr]; simpl in *; [reflexivity|].
    rewrite IHr. f_equal.
    destruct (is_undefined x) eqn:E.
    + apply is_undefined_spec in E as ->. reflexivity.
    + exact Hx.
Qed.

(** Sanitizing twice is sanitizing once. *)
Lemma sanitize_idempotent v :
  replaceUndefinedWithNull (replaceUndefinedWithNull v)
  = replaceUndefinedWithNull v.
Proof.
  induction v as [| | | | |l IH|fs IH] using JsVal_nested_ind;
    simpl; try reflexivity.
  - f_equal. rewrite map_map.
    induction IH as [|x r Hx _ IHr]; simpl; f_equal; auto.
  - f_equal. rewrite map_map.
    induction IH as [|[k x] r Hx _ IHr]; simpl in *; f_equal; auto.
    destruct (is_undefined x) eqn:E; simpl; [reflexivity|].
    rewrite Hx.
    destruct (is_undefined (replaceUndefinedWithNull x)) eqn:E'; [|reflexivity].
    apply is_undefined_spec in E'. destruct x; simpl in *; congruence.
Qed.

(** No property of a sanitized object is [undefined]. *)
Lemma sanitize_object_props fs k :
  get_prop (replaceUndefinedWithNull (JObj fs)) k <> JUndefined
  \/ assoc k fs = None.
Proof.
  simpl. rewrite assoc_sanitize.
  destruct (assoc k fs) as [v|]; [left | right; reflexivity].
  simpl. destruct (is_undefined v) eqn:E; [discriminate|].
  destruct v; simpl in *; congruence.
Qed.

End Sanitizer.

(** C5.  The sanitizer leaves an [undefined] array element as it is:
    [replaceUndefinedWithNull({tags: [undefined, 1], note: undefined})]
    is [{tags: [undefined, 1], note: null}], so an undefined leaf is still
    there afterwards; [undefined] itself is returned unchanged too. *)
Theorem sanitizer_keeps_undefined_array_element :
  replaceUndefinedWithNull
    (JObj [("tags", JArr [JUndefined; JNum 1]); ("note", JUndefined)])
  = JObj [("tags", JArr [JUndefined; JNum 1]); ("note", JNull)]
  /\ has_undefined
       (replaceUndefinedWithNull
          (JObj [("tags", JArr [JUndefined; JNum 1]); ("note", JUndefined)]))
     = true
  /\ replaceUndefinedWithNull (JArr [JUndefined]) = JArr [JUndefined]
  /\ replaceUndefinedWithNull JUndefined = JUndefined.
Proof. repeat split; reflexivity. Qed.

(** ** The timestamp normalizer *)

Section Timestamps.

Lemma has_shape_app p1 p2 s1 s2 :
  has_shape p1 s1 = true -> has_shape p2 s2 = true ->
  has_shape (p1 +:+ p2) (s1 +:+ s2) = true.
Proof.
  revert s1. induction p1 as [|p p1 IH]; intros [|c s1]; simpl;
    try discriminate; [auto|].
  intros H1 H2. apply andb_true_iff in H1 as [Hc H1].
  rewrite Hc. simpl. auto.
Qed.

(** Checked by running [pad] on every number of the range. *)
Lemma pad2_shape n : 0 <= n <= 99 -> has_shape "99" (pad n 2) = true.
Proof.
  intros Hn.
  assert (Hall : forallb (fun n => has_shape "99" (pad n 2)) (seqZ 0 100) = true)
    by (vm_compute; reflexivity).
  rewrite forallb_forall in Hall. apply Hall.
  apply list_elem_of_In, elem_of_seqZ. lia.
Qed.

Lemma pad3_shape n : 0 <= n <= 999 -> has_shape "999" (pad n 3) = true.
Proof.
  intros Hn.
  assert (Hall : forallb (fun n => has_shape "999" (pad n 3)) (seqZ 0 1000) = true)
    by (vm_compute; reflexivity).
  rewrite forallb_forall in Hall. apply Hall.
  apply list_elem_of_In, elem_of_seqZ. lia.
Qed.

Lemma year4_shape y : 1000 <= y <= 9999 -> has_shape "9999" (String_of y) = true.
Proof.
  intros Hy.
  assert (Hall : forallb (fun y => has_shape "9999" (String_of y)) (seqZ 1000 9000) = true)
    by (vm_compute; reflexivity).
  rewrite forallb_forall in Hall. apply Hall.
  apply list_elem_of_In, elem_of_seqZ. lia.
Qed.

Lemma after_year_shape d :
  date_in_range d -> has_shape "-99-99 99:99:99.999" (after_year d) = true.
Proof.
  intros (_ & Hm & Hd & Hh & Hmi & Hs & Hms). unfold after_year.
  change "-99-99 99:99:99.999"
    with ("-" +:+ "99" +:+ "-" +:+ "99" +:+ " " +:+ "99" +:+ ":" +:+ "99"
          +:+ ":" +:+ "99" +:+ "." +:+ "999").
  repeat (apply has_shape_app; [first [reflexivity | apply pad2_shape; lia]|]).
  apply pad3_shape; lia.
Qed.

End Timestamps.

(** C8, as the code has it.  [toCHDateTime64] returns null for a falsy
    argument and for one that [new Date] cannot read, and never throws
    (it is a total function).  For any other argument it returns the
    local full year in plain decimal, not padded, followed by
    [-MM-DD HH:MM:SS.mmm] with two-digit zero-padded month, day, hours,
    minutes and seconds and three-digit milliseconds; the whole string has
    the shape [YYYY-MM-DD HH:MM:SS.mmm] when the year has four digits
    (1000 to 9999).  For the date built from the local fields
    (2024, 0, 2, 3, 4, 5, 6) the result is ["2024-01-02 03:04:05.006"]. *)
Theorem toCHDateTime64_spec (env : Env) (date : DateArg) :
  (date_truthy date = false -> toCHDateTime64 env date = JNull)
  /\ (new_Date env date = None -> toCHDateTime64 env date = JNull)
  /\ (forall d,
        date_truthy date = true -> new_Date env date = Some d ->
        date_in_range d ->
        toCHDateTime64 env date
        = JStr (String_of (getFullYear d) +:+ after_year d)
        /\ has_shape "-99-99 99:99:99.999" (after_year d) = true
        /\ (1000 <= getFullYear d <= 9999 ->
            is_CH_DateTime64 (String_of (getFullYear d) +:+ after_year d)
            = true))
  /\ toCHDateTime64 env (DDate (Some (mkDate 2024 0 2 3 4 5 6)))
     = JStr "2024-01-02 03:04:05.006".
Proof.
  unfold toCHDateTime64. repeat split.
  - intros ->. reflexivity.
  - intros ->. destruct (negb (date_truthy date)); reflexivity.
  - rewrite H, H0. reflexivity.
  - apply after_year_shape; assumption.
  - intros Hy. unfold is_CH_DateTime64.
    change "9999-99-99 99:99:99.999" with ("9999" +:+ "-99-99 99:99:99.999").
    apply has_shape_app; [apply year4_shape; lia | apply after_year_shape; assumption].
Qed.

(** C8 on a server in UTC: the epoch number of 2024-01-02T03:04:05.006Z
    is rendered in the wire format. *)
Lemma toCHDateTime64_spec_witness :
  let env := Sample.env Sample.allowed Sample.ok Sample.echo 0 in
  let date := DVal (JNum Sample.t0) in
  date_truthy date = true
  /\ new_Date env date = Some (mkDate 2024 0 2 3 4 5 6)
  /\ date_in_range (mkDate 2024 0 2 3 4 5 6)
  /\ toCHDateTime64 env date = JStr "2024-01-02 03:04:05.006"
  /\ is_CH_DateTime64 "2024-01-02 03:04:05.006" = true.
Proof.
  intros env date.
  assert (Ht : date_truthy date = true) by reflexivity.
  assert (Hd : new_Date env date = Some (mkDate 2024 0 2 3 4 5 6))
    by (vm_compute; reflexivity).
  assert (Hr : date_in_range (mkDate 2024 0 2 3 4 5 6))
    by (unfold date_in_range; simpl; lia).
  destruct (toCHDateTime64_spec env date) as (_ & _ & H & _).
  destruct (H _ Ht Hd Hr) as (E & _ & Hs).
  split; [exact Ht|]. split; [exact Hd|]. split; [exact Hr|].
  split; [exact E|]. apply Hs. simpl. lia.
Defined.

(** C8 as stated fails for a year below 1000: the valid date with local
    fields (999, 0, 2, 3, 4, 5, 6) is rendered with a three-digit year,
    which is not [YYYY-MM-DD HH:MM:SS.mmm]. *)
Lemma toCHDateTime64_year_not_padded :
  let env := Sample.env Sample.allowed Sample.ok Sample.echo 0 in
  let date := DDate (Some (mkDate 999 0 2 3 4 5 6)) in
  date_truthy date = true
  /\ date_in_range (mkDate 999 0 2 3 4 5 6)
  /\ toCHDateTime64 env date = JStr "999-01-02 03:04:05.006"
  /\ is_CH_DateTime64 "999-01-02 03:04:05.006" = false.
Proof.
  intros env date. repeat split; try reflexivity; simpl; lia.
Qed.

(** ** The quota gate *)

Section Quota.

Variable env : Env.

(** [checkQuota] makes one entitlement call and never throws. *)
Lemma checkQuota_run feature_id customer_id st :
  checkQuota env feature_id customer_id st
  = (Return (quota_answer (respond env (Autumn_check feature_id customer_id))),
     after_call env (Autumn_check feature_id customer_id) st).
Proof.
  unfold checkQuota, try_catch, bind, await, quota_answer, after_call.
  destruct (respond env _) as [resp|e]; [|reflexivity].
  destruct (nullish resp); reflexivity.
Qed.

Lemma quota_answer_false r :
  quota_answer r = JBool false <->
  exists resp, r = Return resp /\ nullish resp = false /\
    (nullish (opt_chain (get_prop resp "data") "allowed") = true
     \/ opt_chain (get_prop resp "data") "allowed" = JBool false).
Proof.
  unfold quota_answer. split.
  - destruct r as [resp|e]; [|discriminate].
    destruct (nullish resp) eqn:Hn; [discriminate|].
    intros H. exists resp. repeat split; auto.
    unfold js_coalesce in H.
    destruct (nullish (opt_chain _ _)); auto.
  - intros (resp & -> & -> & [H|H]); unfold js_coalesce.
    + rewrite H. reflexivity.
    + rewrite H. reflexivity.
Qed.

End Quota.

(** C3, as the code has it.  [checkQuota] never throws.  It returns true
    when the entitlement call throws (and when the response itself is null
    or undefined, where reading [data] throws).  Otherwise it returns
    [data.allowed] when that is there, and false when [data] or [allowed]
    is missing or null: a response without an [allowed] field is treated
    as a denial.  So false is returned exactly for a response whose
    [allowed] is false, missing or null. *)
Theorem checkQuota_outcomes (env : Env) (feature_id : string)
        (customer_id : JsVal) (st : St) :
  let answer := respond env (Autumn_check feature_id customer_id) in
  let out := fst (checkQuota env feature_id customer_id st) in
  (exists v, out = Return v)
  /\ (forall e, answer = Throw e -> out = Return (JBool true))
  /\ (forall resp, answer = Return resp -> nullish resp = true ->
      out = Return (JBool true))
  /\ (forall resp allowed,
        answer = Return resp -> nullish resp = false ->
        opt_chain (get_prop resp "data") "allowed" = allowed ->
        out = Return (if nullish allowed then JBool false else allowed))
  /\ (out = Return (JBool false) <->
      exists resp, answer = Return resp /\ nullish resp = false /\
        (nullish (opt_chain (get_prop resp "data") "allowed") = true
         \/ opt_chain (get_prop resp "data") "allowed" = JBool false)).
Proof.
  intros answer out. subst out. rewrite checkQuota_run. simpl. fold answer.
  split; [eauto|]. split; [intros e ->; reflexivity|].
  split; [intros resp -> Hn; simpl; rewrite Hn; reflexivity|].
  split.
  - intros resp allowed -> Hn <-. simpl. rewrite Hn. reflexivity.
  - rewrite <- quota_answer_false. split; congruence.
Qed.

(** C3 at work: an outage makes the gate say true, an explicit denial and
    a response without [allowed] both make it say false. *)
Lemma checkQuota_outcomes_witness :
  let st := mkSt 200 ∅ Sample.t0 [] in
  fst (checkQuota (Sample.env Sample.down Sample.ok Sample.echo 0)
                  "error" (JStr "c1") st) = Return (JBool true)
  /\ fst (checkQuota (Sample.env Sample.denied Sample.ok Sample.echo 0)
                     "error" (JStr "c1") st) = Return (JBool false)
  /\ fst (checkQuota
            (Sample.env (Return (JObj [("data", JObj [("code", JStr "x")])]))
                        Sample.ok Sample.echo 0)
            "error" (JStr "c1") st) = Return (JBool false).
Proof.
  intros st. split; [|split].
  - apply (checkQuota_outcomes
             (Sample.env Sample.down Sample.ok Sample.echo 0)
             "error" (JStr "c1") st)
      with (e := JObj [("message", JStr "connect ECONNREFUSED")]).
    reflexivity.
  - apply (checkQuota_outcomes
             (Sample.env Sample.denied Sample.ok Sample.echo 0)
             "error" (JStr "c1") st).
    eexists. split; [reflexivity|]. split; [reflexivity|].
    right. reflexivity.
  - apply (checkQuota_outcomes
             (Sample.env (Return (JObj [("data", JObj [("code", JStr "x")])]))
                         Sample.ok Sample.echo 0)
             "error" (JStr "c1") st).
    eexists. split; [reflexivity|]. split; [reflexivity|].
    left. reflexivity.
Defined.

(** C3 as stated fails on a malformed response: when the service answers
    [{data: {}}], without an [allowed] field, or [{data: null}], the gate
    returns false, not true. *)
Lemma checkQuota_malformed_is_false :
  let st := mkSt 200 ∅ Sample.t0 [] in
  fst (checkQuota (Sample.env (Return (JObj [("data", JObj [])]))
                              Sample.ok Sample.echo 0)
                  "error" (JStr "c1") st) = Return (JBool false)
  /\ fst (checkQuota (Sample.env (Return (JObj [("data", JNull)]))
                                 Sample.ok Sample.echo 0)
                     "error" (JStr "c1") st) = Return (JBool false).
Proof. split; reflexivity. Qed.

(** ** Quota rejection in the ingestion handlers *)

Section Rejection.

Variable env : Env.
Variable request : Request.

Lemma inserted_app l1 l2 :
  inserted (l1 ++ l2)%list = (inserted l1 ++ inserted l2)%list.
Proof. unfold inserted. apply omap_app. Qed.

Lemma rejected_intro (h : M JsVal) st check what :
  h st = (Return (quota_exceeded what),
          mkSt 429 (translationCache st) (clock st + latency env check)
               (calls st ++ [check])) ->
  (forall t row, check <> clickhouse_insert t row) ->
  rejected_with h st check what.
Proof.
  intros E Hc. unfold rejected_with. rewrite E. simpl.
  repeat split. rewrite inserted_app. simpl.
  destruct check; simpl; try apply app_nil_r.
  exfalso. eapply Hc. reflexivity.
Qed.

Lemma ingest_rejected st :
  truthy (quota_answer
            (respond env (Autumn_check "error"
                            (get_prop (body request) "client_id")))) = false ->
  rejected_with (ingest env request) st
    (Autumn_check "error" (get_prop (body request) "client_id"))
    "error ingestion".
Proof.
  intros H. apply rejected_intro; [|discriminate].
  unfold ingest, bind. rewrite checkQuota_run, H. reflexivity.
Qed.

Lemma log_rejected st :
  truthy (quota_answer
            (respond env (Autumn_check "log"
                            (get_prop (body request) "client_id")))) = false ->
  rejected_with (log env request) st
    (Autumn_check "log" (get_prop (body request) "client_id"))
    "log ingestion".
Proof.
  intros H. apply rejected_intro; [|discriminate].
  unfold log, bind. rewrite checkQuota_run, H. reflexivity.
Qed.

Lemma track_404_rejected st :
  truthy (quota_answer
            (respond env (Autumn_check "404_page_tracking"
                            (get_prop (body request) "client_id")))) = false ->
  rejected_with (track_404 env request) st
    (Autumn_check "404_page_tracking" (get_prop (body request) "client_id"))
    "404 tracking".
Proof.
  intros H. apply rejected_intro; [|discriminate].
  unfold track_404, bind. rewrite checkQuota_run, H. reflexivity.
Qed.

End Rejection.

(** C7.  In each of the three ingestion handlers, when the quota gate
    returns false (or any falsy value) the handler answers with status 429
    and the quota-exceeded body, and the quota check is the only outside
    call of the request: the event store is not called. *)
Theorem quota_rejection_no_insert (env : Env) (request : Request) (st : St)
        (feature_id : string) (v : JsVal) :
  fst (checkQuota env feature_id (get_prop (body request) "client_id") st)
  = Return v ->
  truthy v = false ->
  let check := Autumn_check feature_id (get_prop (body request) "client_id") in
  (feature_id = "error" ->
   rejected_with (ingest env request) st check "error ingestion")
  /\ (feature_id = "log" ->
      rejected_with (log env request) st check "log ingestion")
  /\ (feature_id = "404_page_tracking" ->
      rejected_with (track_404 env request) st check "404 tracking").
Proof.
  rewrite checkQuota_run. cbn. intros [= <-] Hv.
  split; [|split]; intros ->.
  - apply ingest_rejected, Hv.
  - apply log_rejected, Hv.
  - apply track_404_rejected, Hv.
Qed.

(** C7 on a denied client: a log request is turned away with 429 and the
    only call on record is the entitlement check. *)
Lemma quota_rejection_no_insert_witness :
  let env := Sample.env Sample.denied Sample.ok Sample.echo 3 in
  let request :=
    mkRequest (JObj [("client_id", JStr "c1"); ("message", JStr "hi");
                     ("level", JStr "info")]) JNull JNull in
  let st := mkSt 200 ∅ Sample.t0 [] in
  fst (log env request st) = Return (quota_exceeded "log ingestion")
  /\ set_status (snd (log env request st)) = 429
  /\ calls (snd (log env request st)) = [Autumn_check "log" (JStr "c1")]
  /\ inserted (calls (snd (log env request st))) = [].
Proof.
  intros env request st.
  assert (Hq : fst (checkQuota env "log"
                      (get_prop (body request) "client_id") st)
               = Return (JBool false)) by reflexivity.
  destruct (quota_rejection_no_insert env request st "log" (JBool false)
              Hq eq_refl) as (_ & H & _).
  exact (H eq_refl).
Defined.

(** ** The translation cache *)

Section Cache.

Variable cacheKey : string.
Variable st : St.

Lemma getCachedResult_fresh e :
  translationCache st !! cacheKey = Some e ->
  age st e < CACHE_DURATION ->
  getCachedResult cacheKey st = (Return (result e), st).
Proof.
  unfold getCachedResult, age. intros -> H.
  apply Z.ltb_lt in H. rewrite H. reflexivity.
Qed.

Lemma getCachedResult_expired e :
  translationCache st !! cacheKey = Some e ->
  CACHE_DURATION <= age st e ->
  getCachedResult cacheKey st
  = (Return JNull,
     mkSt (set_status st) (delete cacheKey (translationCache st))
          (clock st) (calls st)).
Proof.
  unfold getCachedResult, age. intros -> H.
  apply Z.ltb_ge in H. rewrite H. reflexivity.
Qed.

Lemma getCachedResult_absent :
  translationCache st !! cacheKey = None ->
  getCachedResult cacheKey st = (Return JNull, st).
Proof. unfold getCachedResult. intros ->. reflexivity. Qed.

(** The lookup never throws. *)
Lemma getCachedResult_returns :
  exists v, fst (getCachedResult cacheKey st) = Return v.
Proof.
  unfold getCachedResult.
  destruct (translationCache st !! cacheKey) as [e|]; [|eauto].
  destruct (_ <? _); eauto.
Qed.

End Cache.

(** C9.  A lookup hits, that is returns a stored (non-null) result,
    exactly when the key has an entry whose age is under the window of
    5 minutes (300000 ms); a hit leaves the cache as it was.  An entry
    whose age has reached or passed the window is not returned: the lookup
    answers null, and in the state it returns the entry is already deleted
    (other keys are untouched).  A key without an entry is a miss that
    changes nothing. *)
Theorem getCachedResult_spec (cacheKey : string) (st : St) :
  let out := getCachedResult cacheKey st in
  CACHE_DURATION = 300000
  /\ (forall e, translationCache st !! cacheKey = Some e ->
                age st e < CACHE_DURATION ->
                out = (Return (result e), st))
  /\ (forall r, r <> JNull ->
        (fst out = Return r <->
         exists e, translationCache st !! cacheKey = Some e
                   /\ age st e < CACHE_DURATION /\ result e = r))
  /\ (forall e, translationCache st !! cacheKey = Some e ->
                CACHE_DURATION <= age st e ->
                fst out = Return JNull
                /\ translationCache (snd out) !! cacheKey = None
                /\ (forall k, k <> cacheKey ->
                      translationCache (snd out) !! k
                      = translationCache st !! k)
                /\ set_status (snd out) = set_status st
                /\ clock (snd out) = clock st
                /\ calls (snd out) = calls st)
  /\ (translationCache st !! cacheKey = None -> out = (Return JNull, st)).
Proof.
  intros out. subst out. split; [reflexivity|].
  split; [apply getCachedResult_fresh|].
  split; [|split].
  - intros r Hr. split.
    + destruct (translationCache st !! cacheKey) as [e|] eqn:He.
      * destruct (Z_lt_le_dec (age st e) CACHE_DURATION) as [Hlt|Hge].
        -- rewrite (getCachedResult_fresh _ _ _ He Hlt). simpl.
           intros [= <-]. eauto.
        -- rewrite (getCachedResult_expired _ _ _ He Hge). simpl. congruence.
      * rewrite (getCachedResult_absent _ _ He). simpl. congruence.
    + intros (e & He & Hlt & <-).
      rewrite (getCachedResult_fresh _ _ _ He Hlt). reflexivity.
  - intros e He Hge. rewrite (getCachedResult_expired _ _ _ He Hge). simpl.
    repeat split.
    + apply lookup_delete_eq.
    + intros k Hk. apply lookup_delete_ne. congruence.
  - apply getCachedResult_absent.
Qed.

(** C9 on one entry stored at [t0]: it is returned one millisecond before
    the window closes, and at the moment the window closes the lookup
    misses and the entry is gone. *)
Lemma getCachedResult_spec_witness :
  let entry := mkEntry (JStr "hola") Sample.t0 in
  let early := mkSt 200 {["hello-en-es" := entry]} (Sample.t0 + 299999) [] in
  let late := mkSt 200 {["hello-en-es" := entry]} (Sample.t0 + 300000) [] in
  getCachedResult "hello-en-es" early = (Return (JStr "hola"), early)
  /\ fst (getCachedResult "hello-en-es" late) = Return JNull
  /\ translationCache (snd (getCachedResult "hello-en-es" late))
       !! "hello-en-es" = None.
Proof.
  intros entry early late.
  assert (He : translationCache early !! "hello-en-es" = Some entry)
    by apply lookup_singleton_eq.
  assert (Hl : translationCache late !! "hello-en-es" = Some entry)
    by apply lookup_singleton_eq.
  destruct (getCachedResult_spec "hello-en-es" early) as (_ & Hfresh & _).
  destruct (getCachedResult_spec "hello-en-es" late) as (_ & _ & _ & Hexp & _).
  split.
  - apply (Hfresh entry He). unfold age, CACHE_DURATION. simpl. lia.
  - assert (Hage : CACHE_DURATION <= age late entry)
      by (unfold age, CACHE_DURATION; simpl; lia).
    destruct (Hexp entry Hl Hage) as (H1 & H2 & _). split; assumption.
Defined.

(** ** The localization routes *)

Section LocalizationObject.

Variable env : Env.
Variable request : Request.
Variable st : St.

(** On a cache miss, a valid object request leads to one translator call,
    and that call names ["ar"] as the target whatever the body asked. *)
Lemma localization_object_miss_calls :
  let content := get_prop (body request) "content" in
  let sourceLocale := prop_default (body request) "sourceLocale" (JStr "en") in
  let targetLocale := prop_default (body request) "targetLocale" (JStr "en") in
  nullish (body request) = false ->
  truthy content = true -> typeof_object content = true ->
  translationCache st !! getCacheKey env content sourceLocale targetLocale
  = None ->
  calls (snd (localization_object env request st))
  = (calls st ++ [localizeObject content sourceLocale (JStr "ar")])%list.
Proof.
  intros content sourceLocale targetLocale Hb Ht Ho Hmiss.
  unfold localization_object, try_catch, bind.
  rewrite Hb. fold content sourceLocale targetLocale.
  rewrite Ht, Ho. simpl.
  rewrite (getCachedResult_absent _ _ Hmiss). simpl.
  unfold await. destruct (respond env _); reflexivity.
Qed.

End LocalizationObject.

(** C6.  [POST /localization/object] with the body
    [{content: {greeting: "hello"}, sourceLocale: "en", targetLocale: "fr"}]
    and an empty cache: the translator is called with target locale
    ["ar"], not ["fr"], and the answer handed back is the translation into
    ["ar"]. *)
Theorem localization_object_targets_ar :
  let env := Sample.env Sample.allowed Sample.ok Sample.echo 40 in
  let content := JObj [("greeting", JStr "hello")] in
  let request :=
    mkRequest (JObj [("content", content); ("sourceLocale", JStr "en");
                     ("targetLocale", JStr "fr")]) JNull JNull in
  let out := serve (localization_object env request) 200 ∅ Sample.t0 in
  calls (snd out) = [localizeObject content (JStr "en") (JStr "ar")]
  /\ fst out = Return (JObj [("result", JStr "en>ar")])
  /\ set_status (snd out) = 200.
Proof. intros env content request out. repeat split; reflexivity. Qed.

(** C10.  Two different triples of content, source locale and target
    locale can have the same cache key, whatever the serialization of
    contents: ["hello"] from ["en-US"] to ["fr"] and ["hello"] from ["en"]
    to ["US-fr"] both have the key ["hello-en-US-fr"], and so do
    (["a-b"], ["c"], ["d"]) and (["a"], ["b-c"], ["d"]).  On the object
    route, a request for the second triple that arrives a minute after a
    request for the first one is answered from the cache with the result
    stored for the first, without a translator call; on an empty cache it
    would have got another answer. *)
Theorem getCacheKey_not_injective :
  (forall env,
      getCacheKey env (JStr "hello") (JStr "en-US") (JStr "fr")
      = getCacheKey env (JStr "hello") (JStr "en") (JStr "US-fr")
      /\ (JStr "hello", JStr "en-US", JStr "fr")
         <> (JStr "hello", JStr "en", JStr "US-fr")
      /\ getCacheKey env (JStr "a-b") (JStr "c") (JStr "d")
         = getCacheKey env (JStr "a") (JStr "b-c") (JStr "d")
      /\ (JStr "a-b", JStr "c", JStr "d") <> (JStr "a", JStr "b-c", JStr "d"))
  /\ (let env := Sample.env Sample.allowed Sample.ok Sample.echo 40 in
      let content := JObj [("greeting", JStr "hello")] in
      let first :=
        mkRequest (JObj [("content", content); ("sourceLocale", JStr "en-US");
                         ("targetLocale", JStr "fr")]) JNull JNull in
      let second :=
        mkRequest (JObj [("content", content); ("sourceLocale", JStr "en");
                         ("targetLocale", JStr "US-fr")]) JNull JNull in
      let run1 := serve (localization_object env first) 200 ∅ Sample.t0 in
      let run2 :=
        serve (localization_object env second) 200
              (translationCache (snd run1)) (Sample.t0 + 60000) in
      let alone :=
        serve (localization_object env second) 200 ∅ (Sample.t0 + 60000) in
      fst run1 = Return (JObj [("result", JStr "en-US>ar")])
      /\ fst run2 = Return (JObj [("result", JStr "en-US>ar")])
      /\ translations (calls (snd run2)) = []
      /\ fst alone = Return (JObj [("result", JStr "en>ar")])
      /\ 60000 < CACHE_DURATION).
Proof.
  split.
  - intros env. repeat split; try reflexivity; discriminate.
  - repeat split; reflexivity.
Qed.

(** ** Object literals *)

Section ObjectLiterals.

Lemma assoc_app k l1 l2 :
  assoc k (l1 ++ l2)%list
  = match assoc k l1 with
    | Some v => Some v
    | None => assoc k l2
    end.
Proof.
  induction l1 as [|[k' v] r IH]; simpl; [reflexivity|].
  destruct (String.eqb k k'); [reflexivity | exact IH].
Qed.

Lemma assoc_obj_set k fs k' v :
  assoc k (obj_set fs k' v)
  = if String.eqb k k' then Some v else assoc k fs.
Proof.
  induction fs as [|[k0 v0] r IH]; simpl; [reflexivity|].
  destruct (String.eqb_spec k' k0) as [->|Hne]; simpl.
  - destruct (String.eqb k k0); reflexivity.
  - destruct (String.eqb_spec k k0) as [->|Hne'].
    + destruct (String.eqb_spec k0 k'); [congruence | reflexivity].
    + exact IH.
Qed.

Lemma assoc_fold_obj_set k es acc :
  assoc k (fold_left (fun acc kv => obj_set acc (fst kv) (snd kv)) es acc)
  = match assoc k (rev es) with
    | Some v => Some v
    | None => assoc k acc
    end.
Proof.
  revert acc. induction es as [|[k' v] es IH]; intros acc; simpl;
    [reflexivity|].
  rewrite IH, assoc_app, assoc_obj_set. simpl.
  destruct (assoc k (rev es)); [reflexivity|].
  destruct (String.eqb k k'); reflexivity.
Qed.

(** In an object literal the last write of a key wins. *)
Lemma assoc_obj_literal k es : assoc k (obj_literal es) = assoc k (rev es).
Proof.
  unfold obj_literal. rewrite assoc_fold_obj_set.
  destruct (assoc k (rev es)); reflexivity.
Qed.

Lemma get_prop_sanitized fs k v :
  assoc k fs = Some v ->
  get_prop (replaceUndefinedWithNull (JObj fs)) k = sanitized_prop v.
Proof.
  intros H. simpl. rewrite assoc_sanitize, H. reflexivity.
Qed.

Lemma kept_or_derived_coalesce b d :
  kept_or_derived b d (sanitized_prop (js_coalesce b d)).
Proof.
  unfold kept_or_derived, js_coalesce, sanitized_prop.
  split; intros H; rewrite H.
  - assert (is_undefined b = false) as ->.
    { destruct b; simpl in *; congruence. }
    split; [reflexivity|]. apply sanitize_defined_id.
  - reflexivity.
Qed.

End ObjectLiterals.

(** ** The ingestion handlers after the quota gate *)

Section MonadSteps.

Lemma bind_return {A B} (m : M A) (k : A -> M B) st a st' :
  m st = (Return a, st') -> bind m k st = k a st'.
Proof. unfold bind. intros ->. reflexivity. Qed.

Lemma bind_throw {A B} (m : M A) (k : A -> M B) st e st' :
  m st = (Throw e, st') -> bind m k st = (Throw e, st').
Proof. unfold bind. intros ->. reflexivity. Qed.

Lemma await_run env e st :
  await env e st = (respond env e, after_call env e st).
Proof. reflexivity. Qed.

End MonadSteps.

Section Ingestion.

Variable env : Env.
Variable request : Request.
Variable st : St.

Lemma sendRealTimeEvent_run u ev p s :
  sendRealTimeEvent env u ev p s
  = (Return tt, after_call env (channel_send u ev p) s).
Proof.
  unfold sendRealTimeEvent, try_catch, bind, await, after_call.
  destruct (respond env _); reflexivity.
Qed.

(** A property written after [...body] reads, in the sanitized row, as
    the sanitized value written there, whatever the body holds. *)
Lemma errorData_row_prop geo now k v :
  assoc k (rev (errorData_after_body env request geo now)) = Some v ->
  get_prop (replaceUndefinedWithNull (errorData env request geo now)) k
  = sanitized_prop v.
Proof.
  intros H. unfold errorData. apply get_prop_sanitized.
  rewrite assoc_obj_literal, !rev_app_distr, <- app_assoc, assoc_app, H.
  reflexivity.
Qed.

(** [/ingest] past the quota gate, step by step: geo lookup, clock,
    insert of the sanitized [errorData], broadcast for a known user. *)
Lemma ingest_allowed_run geo :
  truthy (quota_answer (respond env (quota_check "error" request))) = true ->
  respond env (geo_lookup env request) = Return geo ->
  nullish geo = false ->
  let row := replaceUndefinedWithNull (errorData env request geo (ingest_now env request st)) in
  let stored :=
    after_call env (clickhouse_insert "errors" row)
      (after_call env (geo_lookup env request) (after_call env (quota_check "error" request) st)) in
  ingest env request st
  = match respond env (clickhouse_insert "errors" row) with
    | Return _ =>
        (Return (success (get_prop row "id")),
         if truthy (userId request)
         then after_call env
                (channel_send (userId request) "error_ingested"
                   (error_ingested_payload row)) stored
         else stored)
    | Throw _ => (Return (failure "Failed to process error"), stored)
    end.
Proof.
  intros Hq Hgeo Hn row stored.
  unfold ingest.
  rewrite (bind_return _ _ _ _ _ (checkQuota_run env _ _ st)).
  fold (quota_check "error" request). rewrite Hq. cbn [negb].
  erewrite bind_return
    by (rewrite await_run; exact (f_equal (fun r => (r, _)) Hgeo)).
  unfold new_Date_now, bind at 1. rewrite Hn.
  fold (ingest_now env request st). fold row.
  unfold try_catch.
  destruct (respond env (clickhouse_insert "errors" row)) as [v|e] eqn:Hins.
  - erewrite bind_return
      by (rewrite await_run; exact (f_equal (fun r => (r, _)) Hins)).
    fold stored.
    destruct (truthy (userId request)).
    + erewrite bind_return by apply sendRealTimeEvent_run. reflexivity.
    + reflexivity.
  - erewrite bind_throw
      by (rewrite await_run; exact (f_equal (fun r => (r, _)) Hins)).
    reflexivity.
Qed.

(** [/ingest] past the quota gate: the sanitized [errorData] is the one
    row handed to the store, [set.status] is never assigned, and the
    answer is the success body when the insert returns and the failure
    body when it throws. *)
Lemma ingest_allowed geo :
  truthy (quota_answer (respond env (quota_check "error" request))) = true ->
  respond env (geo_lookup env request) = Return geo ->
  nullish geo = false ->
  let row := replaceUndefinedWithNull (errorData env request geo (ingest_now env request st)) in
  let out := ingest env request st in
  inserted (calls (snd out)) = (inserted (calls st) ++ [("errors", row)])%list
  /\ set_status (snd out) = set_status st
  /\ (forall e, respond env (clickhouse_insert "errors" row) = Throw e ->
        fst out = Return (failure "Failed to process error"))
  /\ (forall v, respond env (clickhouse_insert "errors" row) = Return v ->
        fst out = Return (success (get_prop row "id"))).
Proof.
  intros Hq Hgeo Hn row out. subst out.
  rewrite (ingest_allowed_run geo Hq Hgeo Hn). fold row.
  destruct (respond env (clickhouse_insert "errors" row)) as [v|e].
  - destruct (truthy (userId request)); cbn;
      rewrite !inserted_app; cbn; rewrite !app_nil_r;
      repeat split; try reflexivity; congruence.
  - cbn. rewrite !inserted_app. cbn. rewrite !app_nil_r.
    repeat split; try reflexivity; congruence.
Qed.

End Ingestion.

Section OtherKinds.

Variable env : Env.
Variable request : Request.
Variable st : St.


(** [/log] past the quota gate, step by step: clock, insert of
    [logData], broadcast for a known user, broadcast to the client. *)
Lemma log_allowed_run :
  truthy (quota_answer (respond env (quota_check "log" request))) = true ->
  let row := logData env request (log_now env request st) in
  let stored :=
    after_call env (clickhouse_insert "logs" row)
      (after_call env (quota_check "log" request) st) in
  let told :=
    if truthy (userId request)
    then after_call env
           (channel_send (userId request) "log_ingested"
              (log_ingested_payload row)) stored
    else stored in
  log env request st
  = match respond env (clickhouse_insert "logs" row) with
    | Return _ =>
        (Return (success (get_prop row "id")),
         after_call env
           (channel_send (get_prop (body request) "client_id") "new-log" row)
           told)
    | Throw _ => (Return (failure "Failed to process log"), stored)
    end.
Proof.
  intros Hq row stored told. unfold log.
  rewrite (bind_return _ _ _ _ _ (checkQuota_run env _ _ st)).
  fold (quota_check "log" request). rewrite Hq. cbn [negb].
  unfold new_Date_now, bind at 1. fold (log_now env request st). fold row.
  unfold try_catch.
  destruct (respond env (clickhouse_insert "logs" row)) as [v|e] eqn:Hins.
  - erewrite bind_return
      by (rewrite await_run; exact (f_equal (fun r => (r, _)) Hins)).
    fold stored. subst told.
    destruct (truthy (userId request)).
    + erewrite bind_return by apply sendRealTimeEvent_run.
      erewrite bind_return by apply sendRealTimeEvent_run. reflexivity.
    + erewrite bind_return by reflexivity.
      erewrite bind_return by apply sendRealTimeEvent_run. reflexivity.
  - erewrite bind_throw
      by (rewrite await_run; exact (f_equal (fun r => (r, _)) Hins)).
    reflexivity.
Qed.

(** [/log] past the quota gate hands [logData] to the store as it was
    assembled; the sanitizer is not on this path. *)
Lemma log_allowed :
  truthy (quota_answer (respond env (quota_check "log" request))) = true ->
  let row := logData env request (log_now env request st) in
  let out := log env request st in
  inserted (calls (snd out)) = (inserted (calls st) ++ [("logs", row)])%list
  /\ set_status (snd out) = set_status st.
Proof.
  intros Hq row out. subst out. rewrite (log_allowed_run Hq). fold row.
  destruct (respond env (clickhouse_insert "logs" row)) as [v|e].
  - destruct (truthy (userId request)); cbn;
      rewrite !inserted_app; cbn; rewrite !app_nil_r; split; reflexivity.
  - cbn. rewrite !inserted_app. cbn. rewrite !app_nil_r. split; reflexivity.
Qed.


(** [/track-404] past the quota gate hands the sanitized record to the
    store. *)
Lemma track_404_allowed geo :
  truthy (quota_answer (respond env (quota_check "404_page_tracking" request))) = true ->
  respond env (geo_lookup env request) = Return geo ->
  nullish geo = false ->
  let row := replaceUndefinedWithNull (notFoundData env request geo (track_404_now env request st)) in
  inserted (calls (snd (track_404 env request st)))
  = (inserted (calls st) ++ [("not_found_pages", row)])%list.
Proof.
  intros Hq Hgeo Hn row. unfold track_404.
  rewrite (bind_return _ _ _ _ _ (checkQuota_run env _ _ st)).
  fold (quota_check "404_page_tracking" request). rewrite Hq. cbn [negb].
  erewrite bind_return
    by (rewrite await_run; exact (f_equal (fun r => (r, _)) Hgeo)).
  rewrite Hn. unfold new_Date_now, bind at 1. fold (track_404_now env request st). fold row.
  destruct (respond env (clickhouse_insert "not_found_pages" row))
    as [v|e] eqn:Hins.
  - erewrite bind_return
      by (rewrite await_run; exact (f_equal (fun r => (r, _)) Hins)).
    erewrite bind_return by apply sendRealTimeEvent_run.
    cbn. rewrite !inserted_app. cbn. rewrite !app_nil_r. reflexivity.
  - erewrite bind_throw
      by (rewrite await_run; exact (f_equal (fun r => (r, _)) Hins)).
    cbn. rewrite !inserted_app. cbn. rewrite !app_nil_r. reflexivity.
Qed.

End OtherKinds.

Section StoredRecords.

Lemma sanitized_fields_defined fs :
  fields_defined (replaceUndefinedWithNull (JObj fs)) = true.
Proof.
  simpl. induction fs as [|[k v] r IH]; simpl; [reflexivity|].
  rewrite IH, andb_true_r.
  destruct (is_undefined v) eqn:E; [reflexivity|].
  destruct v; simpl in *; congruence.
Qed.

Lemma sanitized_row_keys fs :
  row_keys (replaceUndefinedWithNull (JObj fs)) = keys fs.
Proof.
  simpl. unfold keys. rewrite map_map. apply map_ext. intros [k v]; reflexivity.
Qed.

Lemma defined_fields_defined fs :
  has_undefined (JObj fs) = false -> fields_defined (JObj fs) = true.
Proof.
  simpl. induction fs as [|[k v] r IH]; simpl; [reflexivity|].
  intros H. apply orb_false_elim in H as [Hv Hr].
  rewrite (IH Hr), andb_true_r. destruct v; simpl in *; congruence.
Qed.

Lemma has_undefined_obj_set fs k v :
  has_undefined (JObj fs) = false -> has_undefined v = false ->
  has_undefined (JObj (obj_set fs k v)) = false.
Proof.
  simpl. intros Hfs Hv. induction fs as [|[k' v'] r IH]; simpl.
  - rewrite Hv. reflexivity.
  - simpl in Hfs. apply orb_false_elim in Hfs as [H1 H2].
    destruct (String.eqb k k'); simpl.
    + rewrite Hv, H2. reflexivity.
    + rewrite H1, (IH H2). reflexivity.
Qed.

(** An object literal whose entries hold no [undefined] holds none. *)
Lemma has_undefined_obj_literal entries :
  Forall (fun kv => has_undefined (snd kv) = false) entries ->
  has_undefined (JObj (obj_literal entries)) = false.
Proof.
  unfold obj_literal.
  assert (H : forall acc,
             has_undefined (JObj acc) = false ->
             Forall (fun kv => has_undefined (snd kv) = false) entries ->
             has_undefined
               (JObj (fold_left (fun acc kv => obj_set acc (fst kv) (snd kv))
                                entries acc)) = false).
  { induction entries as [|[k v] r IH]; intros acc Hacc Hall; simpl;
      [exact Hacc|].
    inversion Hall as [|? ? Hv Hr]; subst.
    apply IH; [|exact Hr]. apply has_undefined_obj_set; assumption. }
  apply H. reflexivity.
Qed.

Lemma spread_defined v :
  has_undefined v = false ->
  Forall (fun kv => has_undefined (snd kv) = false) (spread v).
Proof.
  destruct v as [| | | | | |fs]; simpl; try constructor.
  induction fs as [|[k x] r IH]; simpl; intros H; constructor.
  - apply orb_false_elim in H as [H _]. exact H.
  - apply orb_false_elim in H as [_ H]. auto.
Qed.

Lemma toCHDateTime64_defined env date :
  has_undefined (toCHDateTime64 env date) = false.
Proof.
  unfold toCHDateTime64. destruct (negb (date_truthy date)); [reflexivity|].
  destruct (new_Date env date); reflexivity.
Qed.

(** For a body and a generated id without [undefined], [logData] holds no
    [undefined]. *)
Lemma logData_defined env request now :
  has_undefined (body request) = false ->
  has_undefined (randomUUID env) = false ->
  has_undefined (logData env request now) = false.
Proof.
  intros Hb Hid. unfold logData. apply has_undefined_obj_literal.
  apply Forall_app. split; [constructor; [exact Hid | constructor]|].
  apply Forall_app. split; [apply spread_defined, Hb|].
  constructor; [apply toCHDateTime64_defined | constructor].
Qed.

End StoredRecords.

(** C1, as the code has it.  For the error and the not-found kind the
    assembled record is passed through the null sanitizer right before
    the insert: the row handed to the store is the sanitized record, none
    of its properties is [undefined], and it has the keys of the record,
    no more.  For the log kind the record is inserted as it was
    assembled; when the body holds no [undefined], as every parsed JSON
    body, and the generated id is one, that row is its own sanitized
    form and holds no [undefined] either.  In all three kinds a field
    that is absent from the assembled record is absent from the row: the
    sanitizer turns [undefined] properties into null, it adds no key. *)
Theorem stored_rows_sanitized (env : Env) (request : Request) (st : St) :
  (forall geo,
      truthy (quota_answer (respond env (quota_check "error" request)))
      = true ->
      respond env (geo_lookup env request) = Return geo ->
      nullish geo = false ->
      let record := errorData env request geo (ingest_now env request st) in
      exists row,
        inserted (calls (snd (ingest env request st)))
        = (inserted (calls st) ++ [("errors", row)])%list
        /\ row = replaceUndefinedWithNull record
        /\ fields_defined row = true
        /\ row_keys row = row_keys record)
  /\ (forall geo,
        truthy (quota_answer
                  (respond env (quota_check "404_page_tracking" request)))
        = true ->
        respond env (geo_lookup env request) = Return geo ->
        nullish geo = false ->
        let record :=
          notFoundData env request geo (track_404_now env request st) in
        exists row,
          inserted (calls (snd (track_404 env request st)))
          = (inserted (calls st) ++ [("not_found_pages", row)])%list
          /\ row = replaceUndefinedWithNull record
          /\ fields_defined row = true
          /\ row_keys row = row_keys record)
  /\ (truthy (quota_answer (respond env (quota_check "log" request))) = true ->
      let record := logData env request (log_now env request st) in
      exists row,
        inserted (calls (snd (log env request st)))
        = (inserted (calls st) ++ [("logs", row)])%list
        /\ row = record
        /\ (has_undefined (body request) = false ->
            has_undefined (randomUUID env) = false ->
            row = replaceUndefinedWithNull record
            /\ has_undefined row = false
            /\ fields_defined row = true)).
Proof.
  split; [|split].
  - intros geo Hq Hgeo Hn record.
    destruct (ingest_allowed env request st geo Hq Hgeo Hn) as (Hins & _).
    eexists. split; [exact Hins|]. split; [reflexivity|].
    subst record. unfold errorData.
    split; [apply sanitized_fields_defined | apply sanitized_row_keys].
  - intros geo Hq Hgeo Hn record.
    pose proof (track_404_allowed env request st geo Hq Hgeo Hn) as Hins.
    eexists. split; [exact Hins|]. split; [reflexivity|].
    subst record. unfold notFoundData.
    split; [apply sanitized_fields_defined | apply sanitized_row_keys].
  - intros Hq record.
    destruct (log_allowed env request st Hq) as (Hins & _).
    eexists. split; [exact Hins|]. split; [reflexivity|].
    intros Hb Hid.
    pose proof (logData_defined env request (log_now env request st) Hb Hid)
      as Hdef.
    fold record in Hdef. split; [|split].
    + symmetry. apply sanitize_defined_id, Hdef.
    + exact Hdef.
    + subst record. unfold logData in *. apply defined_fields_defined, Hdef.
Qed.

(** C1 on a minimal log event and on an error event whose user agent
    tells no OS: the log row is its own sanitized form, and the error row
    stores the OS name, undefined in the record, as null. *)
Lemma stored_rows_sanitized_witness :
  let env := Sample.env Sample.allowed Sample.ok Sample.echo 40 in
  let st := mkSt 200 ∅ Sample.t0 [] in
  let log_request :=
    mkRequest (JObj [("client_id", JStr "c1"); ("message", JStr "hi");
                     ("level", JStr "info")]) JNull JNull in
  let error_request :=
    mkRequest (JObj [("client_id", JStr "c1"); ("message", JStr "boom")])
              (JStr "Mozilla/5.0") JNull in
  (exists row,
      inserted (calls (snd (log env log_request st))) = [("logs", row)]
      /\ row = replaceUndefinedWithNull row
      /\ has_undefined row = false)
  /\ (exists row,
        inserted (calls (snd (ingest env error_request st)))
        = [("errors", row)]
        /\ fields_defined row = true
        /\ get_prop row "os_name" = JNull).
Proof.
  intros env st log_request error_request.
  destruct (stored_rows_sanitized env log_request st) as (_ & _ & Hlog).
  destruct (stored_rows_sanitized env error_request st) as (Herr & _).
  split.
  - destruct (Hlog eq_refl) as (row & Hins & Hrow & Hclean).
    destruct (Hclean eq_refl eq_refl) as (Hsan & Hdef & _).
    exists row. split; [exact Hins|]. split; [|exact Hdef].
    rewrite Hrow in Hsan |- *. exact Hsan.
  - destruct (Herr (JObj [("country", JStr "NL"); ("city", JStr "Utrecht")])
                   eq_refl eq_refl eq_refl)
      as (row & Hins & Hrow & Hdef & _).
    exists row. split; [exact Hins|]. split; [exact Hdef|].
    rewrite Hrow. reflexivity.
Defined.

(** C1 as stated fails on fields that are absent: the sanitizer rewrites
    the properties a record has and adds none.  A minimal log event is
    stored without a [context] property, and a minimal error event
    without a [severity] property (sanitized as it is), where the claim
    promises an explicit null for every optional field missing at
    construction time. *)
Lemma absent_fields_stay_absent :
  let env := Sample.env Sample.allowed Sample.ok Sample.echo 40 in
  let st := mkSt 200 ∅ Sample.t0 [] in
  let log_request :=
    mkRequest (JObj [("client_id", JStr "c1"); ("message", JStr "hi");
                     ("level", JStr "info")]) JNull JNull in
  let error_request :=
    mkRequest (JObj [("client_id", JStr "c1"); ("message", JStr "boom")])
              (JStr "Mozilla/5.0") JNull in
  (exists fs,
      inserted (calls (snd (log env log_request st))) = [("logs", JObj fs)]
      /\ keys fs = ["id"; "client_id"; "message"; "level"; "created_at"]
      /\ assoc "context" fs = None
      /\ get_prop (JObj fs) "context" <> JNull)
  /\ (exists fs,
        inserted (calls (snd (ingest env error_request st)))
        = [("errors", JObj fs)]
        /\ assoc "severity" fs = None
        /\ get_prop (JObj fs) "severity" <> JNull).
Proof.
  intros env st log_request error_request. split.
  - eexists. split; [reflexivity|]. split; [reflexivity|].
    split; [reflexivity | discriminate].
  - eexists. split; [reflexivity|]. split; [reflexivity | discriminate].
Qed.

(** C2.  [POST /ingest] with a client that passes the quota check and an
    event store that throws: the handler answers with the body
    [{status: "error", message: "Failed to process error"}] and never
    assigns [set.status], so the response goes out with the status the
    request started with, 200, not 500. *)
Theorem ingest_insert_failure_status :
  let env := Sample.env Sample.allowed Sample.down Sample.echo 40 in
  let request :=
    mkRequest (JObj [("client_id", JStr "c1"); ("message", JStr "boom")])
              (JStr "Mozilla/5.0") JNull in
  let out := serve (ingest env request) 200 ∅ Sample.t0 in
  fst out = Return (failure "Failed to process error")
  /\ set_status (snd out) = 200
  /\ set_status (snd out) <> 500
  /\ length (inserted (calls (snd out))) = 1%nat.
Proof.
  intros env request out. repeat split; try reflexivity. discriminate.
Qed.

Section Coalesce.

Lemma js_coalesce_assoc a b c :
  js_coalesce (js_coalesce a b) c = js_coalesce a (js_coalesce b c).
Proof.
  unfold js_coalesce. destruct (nullish a) eqn:Ha; [reflexivity|].
  rewrite Ha. reflexivity.
Qed.

End Coalesce.

(** Reads property [k] of the sanitized [errorData] off the literal. *)
Ltac row_prop k := rewrite (errorData_row_prop _ _ _ _ k _ eq_refl).

(** C4, as the code has it.  In the row that [/ingest] hands to the store,
    browser name and version, OS name and version and device type hold
    the value of the request body when the body has one that is not null
    (verbatim when it contains no [undefined]), and otherwise the value
    derived from the user agent, with ["desktop"] as the last resort for
    the device type.  The geolocation fields country, region, city, org,
    postal and loc always hold the result of the geo lookup, whatever the
    body says. *)
Theorem ingest_enrichment_precedence (env : Env) (request : Request)
        (st : St) (v geo : JsVal) :
  fst (checkQuota env "error" (get_prop (body request) "client_id") st)
  = Return v ->
  truthy v = true ->
  respond env (getGeoData (extractIpFromRequest env request)) = Return geo ->
  nullish geo = false ->
  let from_body := get_prop (body request) in
  let ua := uaResult env request in
  exists row,
    inserted (calls (snd (ingest env request st)))
    = (inserted (calls st) ++ [("errors", row)])%list
    /\ kept_or_derived (from_body "browser_name")
         (get_prop (get_prop ua "browser") "name")
         (get_prop row "browser_name")
    /\ kept_or_derived (from_body "browser_version")
         (get_prop (get_prop ua "browser") "version")
         (get_prop row "browser_version")
    /\ kept_or_derived (from_body "os_name")
         (get_prop (get_prop ua "os") "name")
         (get_prop row "os_name")
    /\ kept_or_derived (from_body "os_version")
         (get_prop (get_prop ua "os") "version")
         (get_prop row "os_version")
    /\ kept_or_derived (from_body "device_type")
         (js_coalesce (get_prop (get_prop ua "device") "type") (JStr "desktop"))
         (get_prop row "device_type")
    /\ Forall (fun k => get_prop row k = sanitized_prop (get_prop geo k))
              ["country"; "region"; "city"; "org"; "postal"; "loc"].
Proof.
  rewrite checkQuota_run. cbn [fst]. intros [= <-] Hq Hgeo Hn.
  destruct (ingest_allowed env request st geo Hq Hgeo Hn) as (Hins & _).
  eexists. split; [exact Hins|].
  split; [row_prop "browser_name"; apply kept_or_derived_coalesce|].
  split; [row_prop "browser_version"; apply kept_or_derived_coalesce|].
  split; [row_prop "os_name"; apply kept_or_derived_coalesce|].
  split; [row_prop "os_version"; apply kept_or_derived_coalesce|].
  split; [row_prop "device_type"; rewrite js_coalesce_assoc;
          apply kept_or_derived_coalesce|].
  repeat constructor.
  - row_prop "country". reflexivity.
  - row_prop "region". reflexivity.
  - row_prop "city". reflexivity.
  - row_prop "org". reflexivity.
  - row_prop "postal". reflexivity.
  - row_prop "loc". reflexivity.
Qed.

(** C4 on a request that names its browser and leaves the rest to the
    server: the browser name of the body is stored although the user agent
    parses as Firefox, the OS name is null, the device type is
    ["desktop"], and the country is the one of the geo lookup. *)
Lemma ingest_enrichment_precedence_witness :
  let env := Sample.env Sample.allowed Sample.ok Sample.echo 40 in
  let request :=
    mkRequest (JObj [("client_id", JStr "c1"); ("message", JStr "boom");
                     ("browser_name", JStr "Lynx")])
              (JStr "Mozilla/5.0") JNull in
  let st := mkSt 200 ∅ Sample.t0 [] in
  exists row,
    inserted (calls (snd (ingest env request st))) = [("errors", row)]
    /\ get_prop row "browser_name" = JStr "Lynx"
    /\ get_prop row "os_name" = JNull
    /\ get_prop row "device_type" = JStr "desktop"
    /\ get_prop row "country" = JStr "NL".
Proof.
  intros env request st.
  destruct (ingest_enrichment_precedence env request st (JBool true)
              (JObj [("country", JStr "NL"); ("city", JStr "Utrecht")])
              eq_refl eq_refl eq_refl eq_refl)
    as (row & Hins & Hbn & _ & Hon & _ & Hdt & Hgeo).
  exists row. split; [exact Hins|].
  split; [exact (proj2 (proj1 Hbn eq_refl) eq_refl)|].
  split; [exact (proj2 Hon eq_refl)|].
  split; [exact (proj2 Hdt eq_refl)|].
  exact (Forall_inv Hgeo).
Defined.

(** C4 as stated fails for the geolocation fields: a body that says
    [country: "DE"] is stored with the country of the geo lookup, ["NL"]. *)
Lemma ingest_geo_overrides_body :
  let env := Sample.env Sample.allowed Sample.ok Sample.echo 40 in
  let request :=
    mkRequest (JObj [("client_id", JStr "c1"); ("message", JStr "boom");
                     ("country", JStr "DE")])
              (JStr "Mozilla/5.0") JNull in
  get_prop (body request) "country" = JStr "DE"
  /\ exists fs,
       inserted (calls (snd (serve (ingest env request) 200 ∅ Sample.t0)))
       = [("errors", JObj fs)]
       /\ assoc "country" fs = Some (JStr "NL").
Proof.
  intros env request. split; [reflexivity|].
  eexists. split; reflexivity.
Qed.

(** * Further properties *)

(** ** More on the null sanitizer *)

(** X1.  The sanitizer changes nothing but [undefined] into [null]: its
    result has the nesting, the keys in their order and the array lengths
    of its argument, and every leaf that was not [undefined] is as it
    was. *)
Theorem sanitizer_only_nulls_undefined v :
  undefined_to_null v (replaceUndefinedWithNull v).
Proof.
  induction v as [| | | | |l IH|fs IH] using JsVal_nested_ind;
    simpl; try apply u2n_same.
  - apply u2n_arr. induction IH as [|x r Hx _ IHr]; simpl; constructor; auto.
  - apply u2n_obj. induction IH as [|[k x] r Hx _ IHr]; simpl; constructor;
      auto.
    simpl. split; [reflexivity|].
    destruct (is_undefined x) eqn:E; [|exact Hx].
    apply is_undefined_spec in E as ->. apply u2n_null.
Qed.

(** X2.  Sanitizing is idempotent, and what it returns is free of
    [undefined] exactly when the argument is not [undefined] itself and
    has no [undefined] array element at any depth. *)
Theorem sanitizer_idempotent_and_reach v :
  replaceUndefinedWithNull (replaceUndefinedWithNull v)
  = replaceUndefinedWithNull v
  /\ (has_undefined (replaceUndefinedWithNull v) = false
      <-> v <> JUndefined /\ has_undefined_elem v = false).
Proof.
  split; [apply sanitize_idempotent|].
  rewrite sanitize_leftover, orb_false_iff.
  split; intros [H1 H2]; split; auto.
  - intros ->. discriminate.
  - destruct v; simpl; congruence.
Qed.

(** X3.  A value that holds no [undefined] anywhere, such as any parsed
    JSON document, is returned unchanged. *)
Theorem sanitizer_keeps_json v :
  has_undefined v = false -> replaceUndefinedWithNull v = v.
Proof. apply sanitize_defined_id. Qed.

Lemma sanitizer_keeps_json_witness :
  replaceUndefinedWithNull
    (JObj [("tags", JArr [JStr "a"; JNull]); ("n", JNum 3)])
  = JObj [("tags", JArr [JStr "a"; JNull]); ("n", JNum 3)].
Proof. apply sanitizer_keeps_json. reflexivity. Defined.

(** ** String append *)

Section Append.

Lemma append_cons (c : ascii) (a b : string) :
  String c a +:+ b = String c (a +:+ b).
Proof. reflexivity. Qed.

End Append.

(** ** More on the translation cache *)

(** X5.  Store then look up: a result stored under a key is what a lookup
    of that key returns as long as less than 5 minutes have passed, with
    the cache left as it is; from 5 minutes on the lookup answers null and
    the cache is what it was before the store, without the key. *)
Theorem cache_store_then_lookup (cacheKey : string) (res : JsVal) (st : St)
        (d : Z) :
  let later := elapse d (snd (setCachedResult cacheKey res st)) in
  (d < CACHE_DURATION ->
   getCachedResult cacheKey later = (Return res, later))
  /\ (CACHE_DURATION <= d ->
      fst (getCachedResult cacheKey later) = Return JNull
      /\ translationCache (snd (getCachedResult cacheKey later))
         = delete cacheKey (translationCache st)).
Proof.
  intros later.
  assert (He : translationCache later !! cacheKey
               = Some (mkEntry res (clock st)))
    by (simpl; apply lookup_insert_eq).
  split; intros Hd.
  - rewrite (getCachedResult_fresh _ _ _ He); [reflexivity|].
    unfold age. simpl. lia.
  - rewrite (getCachedResult_expired _ _ _ He) by (unfold age; simpl; lia).
    simpl. split; [reflexivity | apply delete_insert_eq].
Qed.

Lemma cache_store_then_lookup_witness :
  let st := mkSt 200 ∅ Sample.t0 [] in
  getCachedResult "hello-en-es"
    (elapse 1000 (snd (setCachedResult "hello-en-es" (JStr "hola") st)))
  = (Return (JStr "hola"),
     elapse 1000 (snd (setCachedResult "hello-en-es" (JStr "hola") st)))
  /\ fst (getCachedResult "hello-en-es"
            (elapse 300000
               (snd (setCachedResult "hello-en-es" (JStr "hola") st))))
     = Return JNull.
Proof.
  intros st.
  destruct (cache_store_then_lookup "hello-en-es" (JStr "hola") st 1000)
    as [H1 _].
  destruct (cache_store_then_lookup "hello-en-es" (JStr "hola") st 300000)
    as [_ H2].
  split.
  - apply H1. unfold CACHE_DURATION. lia.
  - apply H2. unfold CACHE_DURATION. lia.
Defined.

(** X6.  A second store under the same key replaces the first (result and
    time stamp), and a store leaves the entries of all other keys as they
    are. *)
Theorem cache_last_store_wins (cacheKey : string) (r1 r2 : JsVal) (st : St)
        (d : Z) :
  let st' :=
    snd (setCachedResult cacheKey r2
           (elapse d (snd (setCachedResult cacheKey r1 st)))) in
  translationCache st' !! cacheKey = Some (mkEntry r2 (clock st + d))
  /\ (forall k, k <> cacheKey ->
        translationCache st' !! k = translationCache st !! k)
  /\ lookup_value cacheKey st' = r2.
Proof.
  intros st'. subst st'. simpl. split; [apply lookup_insert_eq|]. split.
  - intros k Hk. rewrite !lookup_insert_ne by congruence. reflexivity.
  - unfold lookup_value, getCachedResult. simpl. rewrite lookup_insert_eq.
    simpl. replace (clock st + d - (clock st + d)) with 0 by lia.
    reflexivity.
Qed.

(** ** More on cache keys *)

Section Keys.

Lemma append_assoc (a b c : string) : (a +:+ b) +:+ c = a +:+ (b +:+ c).
Proof.
  induction a as [|x a IH]; [reflexivity|].
  rewrite !append_cons, IH. reflexivity.
Qed.

Lemma dash_cons (y : string) : "-" +:+ y = String "-" y.
Proof. reflexivity. Qed.

Lemma append_middle (a b y : string) (c : ascii) :
  a +:+ String c (b +:+ y) = (a +:+ String c b) +:+ y.
Proof.
  induction a as [|x a IH]; [reflexivity|].
  rewrite !append_cons, IH. reflexivity.
Qed.

Lemma dash_free_with_dash (r t : string) :
  dash_free (r +:+ String "-" t) = false.
Proof.
  induction r as [|c r IH]; [reflexivity|].
  rewrite append_cons. simpl. rewrite IH. apply andb_false_r.
Qed.

(** A string is split in one way only at its last hyphen. *)
Lemma split_last_dash (x x' t t' : string) :
  dash_free t = true -> dash_free t' = true ->
  x +:+ String "-" t = x' +:+ String "-" t' -> x = x' /\ t = t'.
Proof.
  intros Ht Ht'. revert x'.
  induction x as [|a r IH]; intros [|a' r']; rewrite ?append_cons;
    change ("" +:+ String "-" t) with (String "-" t);
    change ("" +:+ String "-" t') with (String "-" t');
    intros E; injection E as E.
  - auto.
  - subst. rewrite dash_free_with_dash in Ht. discriminate.
  - subst. rewrite dash_free_with_dash in Ht'. discriminate.
  - subst. destruct (IH r' ltac:(assumption)) as [-> ->]. auto.
Qed.

End Keys.

(** X7.  Cache keys are unambiguous as long as locale codes hold no
    hyphen: for source and target locales that are strings without a
    hyphen, two keys are equal only if the serialized contents, the
    source locales and the target locales are equal; contents that are
    strings are then equal as well. *)
Theorem getCacheKey_injective_without_dash (env : Env) (c1 c2 : JsVal)
        (s1 t1 s2 t2 : string) :
  dash_free s1 = true -> dash_free t1 = true ->
  dash_free s2 = true -> dash_free t2 = true ->
  getCacheKey env c1 (JStr s1) (JStr t1)
  = getCacheKey env c2 (JStr s2) (JStr t2) ->
  contentStr env c1 = contentStr env c2
  /\ s1 = s2 /\ t1 = t2
  /\ (forall a b, c1 = JStr a -> c2 = JStr b -> a = b).
Proof.
  intros Hs1 Ht1 Hs2 Ht2. unfold getCacheKey. fold (contentStr env c1).
  fold (contentStr env c2). cbn [ToString]. intros E.
  rewrite !dash_cons in E.
  rewrite !append_middle in E.
  apply split_last_dash in E as [E ->]; auto.
  apply split_last_dash in E as [E ->]; auto.
  repeat split; [exact E|].
  intros a b -> ->. exact E.
Qed.

(** X7 at work: the same text asked for in French and in Spanish has two
    different keys, and so have two different texts asked for in the same
    language, although one of them holds hyphens. *)
Lemma getCacheKey_injective_without_dash_witness :
  let env := Sample.env Sample.allowed Sample.ok Sample.echo 40 in
  getCacheKey env (JStr "hello") (JStr "en") (JStr "fr")
  <> getCacheKey env (JStr "hello") (JStr "en") (JStr "es")
  /\ getCacheKey env (JStr "a-b") (JStr "en") (JStr "fr")
     <> getCacheKey env (JStr "a") (JStr "en") (JStr "fr").
Proof.
  intros env. split; intros E.
  - destruct (getCacheKey_injective_without_dash env
                (JStr "hello") (JStr "hello") "en" "fr" "en" "es"
                eq_refl eq_refl eq_refl eq_refl E)
      as (_ & _ & Ht & _).
    discriminate Ht.
  - destruct (getCacheKey_injective_without_dash env
                (JStr "a-b") (JStr "a") "en" "fr" "en" "fr"
                eq_refl eq_refl eq_refl eq_refl E)
      as (_ & _ & _ & Hc).
    discriminate (Hc "a-b" "a" eq_refl eq_refl).
Defined.

(** ** The localization routes, run by run *)

Section LocalizationRuns.

Variable env : Env.
Variable request : Request.
Variable st : St.

Lemma getCachedResult_value cacheKey s :
  getCachedResult cacheKey s
  = (Return (lookup_value cacheKey s), snd (getCachedResult cacheKey s)).
Proof.
  unfold lookup_value, getCachedResult.
  destruct (translationCache s !! cacheKey) as [e|]; [|reflexivity].
  destruct (_ <? _); reflexivity.
Qed.




Lemma localization_miss :
  nullish (body request) = false ->
  truthy (get_prop (body request) "key") = true ->
  truthy (lookup_value (text_cacheKey env request) st) = false ->
  let looked := snd (getCachedResult (text_cacheKey env request) st) in
  let called := after_call env (text_call request) looked in
  localization env request st
  = match respond env (text_call request) with
    | Return r =>
        (Return (JObj [("result", r)]),
         snd (setCachedResult (text_cacheKey env request) r called))
    | Throw _ =>
        (Return (JObj [("error", JStr "Translation failed")]),
         mkSt 500 (translationCache called) (clock called) (calls called))
    end.
Proof.
  intros Hb Hk Hmiss looked called. unfold localization, try_catch.
  rewrite Hb, Hk. cbn [negb].
  fold (text_language request). fold (text_cacheKey env request).
  fold (text_call request).
  erewrite bind_return by apply getCachedResult_value.
  rewrite Hmiss. fold looked.
  destruct (respond env (text_call request)) as [r|e] eqn:Hr.
  - erewrite bind_return
      by (rewrite await_run; exact (f_equal (fun r => (r, _)) Hr)).
    reflexivity.
  - erewrite bind_throw
      by (rewrite await_run; exact (f_equal (fun r => (r, _)) Hr)).
    reflexivity.
Qed.


Lemma localization_object_miss :
  nullish (body request) = false ->
  truthy (get_prop (body request) "content") = true ->
  typeof_object (get_prop (body request) "content") = true ->
  truthy (lookup_value (object_cacheKey env request) st) = false ->
  let looked := snd (getCachedResult (object_cacheKey env request) st) in
  let called := after_call env (object_call request) looked in
  localization_object env request st
  = match respond env (object_call request) with
    | Return r =>
        (Return (JObj [("result", r)]),
         snd (setCachedResult (object_cacheKey env request) r called))
    | Throw _ =>
        (Return (JObj [("error", JStr "Object translation failed")]),
         mkSt 500 (translationCache called) (clock called) (calls called))
    end.
Proof.
  intros Hb Hk Ho Hmiss looked called. unfold localization_object, try_catch.
  rewrite Hb, Hk, Ho. cbn [negb orb].
  fold (object_cacheKey env request). fold (object_call request).
  erewrite bind_return by apply getCachedResult_value.
  rewrite Hmiss. fold looked.
  destruct (respond env (object_call request)) as [r|e] eqn:Hr.
  - erewrite bind_return
      by (rewrite await_run; exact (f_equal (fun r => (r, _)) Hr)).
    reflexivity.
  - erewrite bind_throw
      by (rewrite await_run; exact (f_equal (fun r => (r, _)) Hr)).
    reflexivity.
Qed.

End LocalizationRuns.

Section LookupFrame.



Lemma lookup_value_absent cacheKey s :
  translationCache s !! cacheKey = None -> lookup_value cacheKey s = JNull.
Proof.
  intros He. unfold lookup_value.
  rewrite (getCachedResult_absent _ _ He). reflexivity.
Qed.


End LookupFrame.

(** X8.  Requests that the localization routes turn away cost nothing: a
    missing [key] (or a [content] that is missing or not an object) is
    answered 400, and a request without a body is answered 500, in both
    cases without a call to the translator and with the cache, the clock
    and the call record as they were. *)
Theorem localization_rejections_touch_nothing (env : Env) (request : Request)
        (st : St) :
  let untouched code :=
    mkSt code (translationCache st) (clock st) (calls st) in
  (nullish (body request) = true ->
   localization env request st
   = (Return (JObj [("error", JStr "Translation failed")]), untouched 500)
   /\ localization_object env request st
      = (Return (JObj [("error", JStr "Object translation failed")]),
         untouched 500))
  /\ (nullish (body request) = false ->
      truthy (get_prop (body request) "key") = false ->
      localization env request st
      = (Return (JObj [("error", JStr "Key is required")]), untouched 400))
  /\ (nullish (body request) = false ->
      truthy (get_prop (body request) "content") = false
      \/ typeof_object (get_prop (body request) "content") = false ->
      localization_object env request st
      = (Return (JObj [("error", JStr "Content object is required")]),
         untouched 400)).
Proof.
  intros untouched. split; [|split].
  - intros Hb. unfold localization, localization_object, try_catch.
    rewrite Hb. split; reflexivity.
  - intros Hb Hk. unfold localization, try_catch. rewrite Hb, Hk. reflexivity.
  - intros Hb Hc. unfold localization_object, try_catch. rewrite Hb.
    assert (negb (truthy (get_prop (body request) "content"))
            || negb (typeof_object (get_prop (body request) "content"))
            = true) as ->.
    { destruct Hc as [-> | ->]; [reflexivity | apply orb_true_r]. }
    reflexivity.
Qed.

Lemma localization_rejections_touch_nothing_witness :
  let env := Sample.env Sample.allowed Sample.ok Sample.echo 40 in
  let st := mkSt 200 ∅ Sample.t0 [] in
  localization env (mkRequest JUndefined JNull JNull) st
  = (Return (JObj [("error", JStr "Translation failed")]),
     mkSt 500 ∅ Sample.t0 [])
  /\ localization env (mkRequest (JObj [("language", JStr "es")]) JNull JNull)
       st
     = (Return (JObj [("error", JStr "Key is required")]),
        mkSt 400 ∅ Sample.t0 [])
  /\ localization_object env
       (mkRequest (JObj [("content", JStr "hello")]) JNull JNull) st
     = (Return (JObj [("error", JStr "Content object is required")]),
        mkSt 400 ∅ Sample.t0 []).
Proof.
  intros env st. split; [|split].
  - apply (localization_rejections_touch_nothing env
             (mkRequest JUndefined JNull JNull) st). reflexivity.
  - apply (localization_rejections_touch_nothing env
             (mkRequest (JObj [("language", JStr "es")]) JNull JNull) st);
      reflexivity.
  - apply (localization_rejections_touch_nothing env
             (mkRequest (JObj [("content", JStr "hello")]) JNull JNull) st);
      [reflexivity | right; reflexivity].
Defined.





(** X11.  A failed translation is not cached.  When the translator throws
    on a valid request that missed the cache, either localization route
    answers 500 with its error body, and the cache holds what the lookup
    left: nothing is stored under the key of the request. *)
Theorem localization_failure_not_cached (env : Env) (request : Request)
        (st : St) (e : JsVal) :
  nullish (body request) = false ->
  (truthy (get_prop (body request) "key") = true ->
   truthy (lookup_value (text_cacheKey env request) st) = false ->
   respond env (text_call request) = Throw e ->
   let st' := snd (localization env request st) in
   fst (localization env request st)
   = Return (JObj [("error", JStr "Translation failed")])
   /\ set_status st' = 500
   /\ translationCache st'
      = translationCache (snd (getCachedResult (text_cacheKey env request) st))
   /\ (translationCache st !! text_cacheKey env request = None ->
       translationCache st' = translationCache st))
  /\ (truthy (get_prop (body request) "content") = true ->
      typeof_object (get_prop (body request) "content") = true ->
      truthy (lookup_value (object_cacheKey env request) st) = false ->
      respond env (object_call request) = Throw e ->
      let st' := snd (localization_object env request st) in
      fst (localization_object env request st)
      = Return (JObj [("error", JStr "Object translation failed")])
      /\ set_status st' = 500
      /\ translationCache st'
         = translationCache
             (snd (getCachedResult (object_cacheKey env request) st))
      /\ (translationCache st !! object_cacheKey env request = None ->
          translationCache st' = translationCache st)).
Proof.
  intros Hb. split.
  - intros Hk Hmiss Hr st'. subst st'.
    rewrite (localization_miss env request st Hb Hk Hmiss), Hr. cbn [fst snd].
    repeat split.
    intros Hnone. simpl. rewrite (getCachedResult_absent _ _ Hnone).
    reflexivity.
  - intros Hk Ho Hmiss Hr st'. subst st'.
    rewrite (localization_object_miss env request st Hb Hk Ho Hmiss), Hr.
    cbn [fst snd]. repeat split.
    intros Hnone. simpl. rewrite (getCachedResult_absent _ _ Hnone).
    reflexivity.
Qed.

Lemma localization_failure_not_cached_witness :
  let env :=
    Sample.env Sample.allowed Sample.ok (fun _ _ _ => Sample.down) 40 in
  let request := mkRequest (JObj [("key", JStr "hello")]) JNull JNull in
  let st := mkSt 200 ∅ Sample.t0 [] in
  fst (localization env request st)
  = Return (JObj [("error", JStr "Translation failed")])
  /\ set_status (snd (localization env request st)) = 500
  /\ translationCache (snd (localization env request st)) = ∅.
Proof.
  intros env request st.
  destruct (localization_failure_not_cached env request st
              (JObj [("message", JStr "connect ECONNREFUSED")]) eq_refl)
    as [H _].
  destruct (H eq_refl eq_refl eq_refl) as (H1 & H2 & _ & H4).
  split; [exact H1|]. split; [exact H2|].
  apply H4. apply lookup_empty.
Defined.



(** ** The ingestion handlers, call by call *)

Section IngestionRuns.

Variable env : Env.
Variable request : Request.
Variable st : St.

(** [/track-404] past the quota gate, step by step; a failed insert is
    not caught here. *)
Lemma track_404_allowed_run geo :
  truthy (quota_answer (respond env (quota_check "404_page_tracking" request)))
  = true ->
  respond env (geo_lookup env request) = Return geo ->
  nullish geo = false ->
  let row :=
    replaceUndefinedWithNull
      (notFoundData env request geo (track_404_now env request st)) in
  let stored :=
    after_call env (clickhouse_insert "not_found_pages" row)
      (after_call env (geo_lookup env request)
         (after_call env (quota_check "404_page_tracking" request) st)) in
  track_404 env request st
  = match respond env (clickhouse_insert "not_found_pages" row) with
    | Return _ =>
        (Return (success (get_prop
                            (notFoundData env request geo
                               (track_404_now env request st)) "id")),
         after_call env
           (channel_send (get_prop (body request) "client_id") "new-404" row)
           stored)
    | Throw e => (Throw e, stored)
    end.
Proof.
  intros Hq Hgeo Hn row stored. unfold track_404.
  rewrite (bind_return _ _ _ _ _ (checkQuota_run env _ _ st)).
  fold (quota_check "404_page_tracking" request). rewrite Hq. cbn [negb].
  erewrite bind_return
    by (rewrite await_run; exact (f_equal (fun r => (r, _)) Hgeo)).
  rewrite Hn. unfold new_Date_now, bind at 1.
  fold (track_404_now env request st). fold row.
  destruct (respond env (clickhouse_insert "not_found_pages" row))
    as [v|e] eqn:Hins.
  - erewrite bind_return
      by (rewrite await_run; exact (f_equal (fun r => (r, _)) Hins)).
    erewrite bind_return by apply sendRealTimeEvent_run. reflexivity.
  - erewrite bind_throw
      by (rewrite await_run; exact (f_equal (fun r => (r, _)) Hins)).
    reflexivity.
Qed.

(** A geo lookup that throws, or answers null or undefined, ends
    [/ingest] and [/track-404] with a throw right there. *)
Lemma ingest_geo_failure :
  truthy (quota_answer (respond env (quota_check "error" request))) = true ->
  (forall e, respond env (geo_lookup env request) = Throw e ->
     ingest env request st
     = (Throw e, after_call env (geo_lookup env request)
                   (after_call env (quota_check "error" request) st)))
  /\ (forall geo, respond env (geo_lookup env request) = Return geo ->
        nullish geo = true ->
        ingest env request st
        = (Throw TypeError,
           after_call env (geo_lookup env request)
             (after_call env (quota_check "error" request) st))).
Proof.
  intros Hq. split.
  - intros e Hgeo. unfold ingest.
    rewrite (bind_return _ _ _ _ _ (checkQuota_run env _ _ st)).
    fold (quota_check "error" request). rewrite Hq. cbn [negb].
    erewrite bind_throw
      by (rewrite await_run; exact (f_equal (fun r => (r, _)) Hgeo)).
    reflexivity.
  - intros geo Hgeo Hn. unfold ingest.
    rewrite (bind_return _ _ _ _ _ (checkQuota_run env _ _ st)).
    fold (quota_check "error" request). rewrite Hq. cbn [negb].
    erewrite bind_return
      by (rewrite await_run; exact (f_equal (fun r => (r, _)) Hgeo)).
    unfold new_Date_now, bind at 1. rewrite Hn. reflexivity.
Qed.

Lemma track_404_geo_failure :
  truthy (quota_answer (respond env (quota_check "404_page_tracking" request)))
  = true ->
  (forall e, respond env (geo_lookup env request) = Throw e ->
     track_404 env request st
     = (Throw e, after_call env (geo_lookup env request)
                   (after_call env (quota_check "404_page_tracking" request)
                      st)))
  /\ (forall geo, respond env (geo_lookup env request) = Return geo ->
        nullish geo = true ->
        track_404 env request st
        = (Throw TypeError,
           after_call env (geo_lookup env request)
             (after_call env (quota_check "404_page_tracking" request) st))).
Proof.
  intros Hq. split.
  - intros e Hgeo. unfold track_404.
    rewrite (bind_return _ _ _ _ _ (checkQuota_run env _ _ st)).
    fold (quota_check "404_page_tracking" request). rewrite Hq. cbn [negb].
    erewrite bind_throw
      by (rewrite await_run; exact (f_equal (fun r => (r, _)) Hgeo)).
    reflexivity.
  - intros geo Hgeo Hn. unfold track_404.
    rewrite (bind_return _ _ _ _ _ (checkQuota_run env _ _ st)).
    fold (quota_check "404_page_tracking" request). rewrite Hq. cbn [negb].
    erewrite bind_return
      by (rewrite await_run; exact (f_equal (fun r => (r, _)) Hgeo)).
    rewrite Hn. reflexivity.
Qed.

End IngestionRuns.

(** X13.  The outside calls of [POST /ingest] past the quota gate, in
    order: the quota check, the geo lookup, the insert of the sanitized
    record and then, only when the insert returned and the request has a
    user, one [error_ingested] broadcast to that user.  A failed insert is
    followed by no call at all. *)
Theorem ingest_call_order (env : Env) (request : Request) (st : St)
        (geo : JsVal) :
  truthy (quota_answer (respond env (quota_check "error" request))) = true ->
  respond env (geo_lookup env request) = Return geo ->
  nullish geo = false ->
  let row :=
    replaceUndefinedWithNull
      (errorData env request geo (ingest_now env request st)) in
  calls (snd (ingest env request st))
  = (calls st
     ++ [quota_check "error" request; geo_lookup env request;
         clickhouse_insert "errors" row]
     ++ match respond env (clickhouse_insert "errors" row) with
        | Return _ =>
            if truthy (userId request)
            then [channel_send (userId request) "error_ingested"
                    (error_ingested_payload row)]
            else []
        | Throw _ => []
        end)%list.
Proof.
  intros Hq Hgeo Hn row.
  rewrite (ingest_allowed_run env request st geo Hq Hgeo Hn). fold row.
  destruct (respond env (clickhouse_insert "errors" row)) as [v|e].
  - destruct (truthy (userId request)); simpl;
      rewrite <- ?app_assoc; reflexivity.
  - simpl. rewrite <- ?app_assoc. reflexivity.
Qed.

Lemma ingest_call_order_witness :
  let env := Sample.env Sample.allowed Sample.down Sample.echo 40 in
  let request :=
    mkRequest (JObj [("client_id", JStr "c1"); ("message", JStr "boom")])
              (JStr "Mozilla/5.0") (JStr "u1") in
  let st := mkSt 200 ∅ Sample.t0 [] in
  List.filter is_broadcast (calls (snd (ingest env request st))) = []
  /\ length (calls (snd (ingest env request st))) = 3%nat.
Proof.
  intros env request st.
  rewrite (ingest_call_order env request st
             (JObj [("country", JStr "NL"); ("city", JStr "Utrecht")])
             eq_refl eq_refl eq_refl).
  split; reflexivity.
Defined.

(** X14.  The outside calls of [POST /log] past the quota gate, in order:
    the quota check, the insert of [logData] and then, only when the
    insert returned, the [log_ingested] broadcast to the user of the
    request if it has one, followed in every case by the [new-log]
    broadcast of the whole row to the channel of the client id. *)
Theorem log_call_order (env : Env) (request : Request) (st : St) :
  truthy (quota_answer (respond env (quota_check "log" request))) = true ->
  let row := logData env request (log_now env request st) in
  calls (snd (log env request st))
  = (calls st
     ++ [quota_check "log" request; clickhouse_insert "logs" row]
     ++ match respond env (clickhouse_insert "logs" row) with
        | Return _ =>
            (if truthy (userId request)
             then [channel_send (userId request) "log_ingested"
                     (log_ingested_payload row)]
             else [])
            ++ [channel_send (get_prop (body request) "client_id")
                  "new-log" row]
        | Throw _ => []
        end)%list.
Proof.
  intros Hq row.
  rewrite (log_allowed_run env request st Hq). fold row.
  destruct (respond env (clickhouse_insert "logs" row)) as [v|e].
  - destruct (truthy (userId request)); simpl;
      rewrite <- ?app_assoc; reflexivity.
  - simpl. rewrite <- ?app_assoc. reflexivity.
Qed.

Lemma log_call_order_witness :
  let env := Sample.env Sample.allowed Sample.ok Sample.echo 40 in
  let request :=
    mkRequest (JObj [("client_id", JStr "c1"); ("message", JStr "hi");
                     ("level", JStr "info")]) JNull JNull in
  let st := mkSt 200 ∅ Sample.t0 [] in
  exists row,
    calls (snd (log env request st))
    = [Autumn_check "log" (JStr "c1"); clickhouse_insert "logs" row;
       channel_send (JStr "c1") "new-log" row].
Proof.
  intros env request st. eexists.
  rewrite (log_call_order env request st eq_refl). reflexivity.
Defined.

(** X15.  A geo lookup that throws stops [POST /ingest] and
    [POST /track-404] before anything is stored: the handler throws the
    same error (it does not catch it), and the quota check and the lookup
    are the only outside calls of the request. *)
Theorem geo_failure_aborts_ingestion (env : Env) (request : Request)
        (st : St) (e : JsVal) :
  respond env (geo_lookup env request) = Throw e ->
  (truthy (quota_answer (respond env (quota_check "error" request))) = true ->
   fst (ingest env request st) = Throw e
   /\ calls (snd (ingest env request st))
      = (calls st ++ [quota_check "error" request;
                      geo_lookup env request])%list)
  /\ (truthy (quota_answer
                (respond env (quota_check "404_page_tracking" request)))
      = true ->
      fst (track_404 env request st) = Throw e
      /\ calls (snd (track_404 env request st))
         = (calls st ++ [quota_check "404_page_tracking" request;
                         geo_lookup env request])%list).
Proof.
  intros Hg. split; intros Hq.
  - destruct (ingest_geo_failure env request st Hq) as [Ht _].
    rewrite (Ht e Hg). simpl. rewrite <- app_assoc. split; reflexivity.
  - destruct (track_404_geo_failure env request st Hq) as [Ht _].
    rewrite (Ht e Hg). simpl. rewrite <- app_assoc. split; reflexivity.
Qed.

Lemma geo_failure_aborts_ingestion_witness :
  let env :=
    with_geo Sample.down
             (Sample.env Sample.allowed Sample.ok Sample.echo 40) in
  let request :=
    mkRequest (JObj [("client_id", JStr "c1"); ("message", JStr "boom")])
              (JStr "Mozilla/5.0") JNull in
  let st := mkSt 200 ∅ Sample.t0 [] in
  fst (ingest env request st)
  = Throw (JObj [("message", JStr "connect ECONNREFUSED")])
  /\ calls (snd (ingest env request st))
     = [Autumn_check "error" (JStr "c1"); getGeoData (JStr "203.0.113.7")].
Proof.
  intros env request st.
  destruct (geo_failure_aborts_ingestion env request st
              (JObj [("message", JStr "connect ECONNREFUSED")]) eq_refl)
    as [H _].
  exact (H eq_refl).
Defined.

(** ** Error mapping *)

Section Includes.

Lemma prefix_spec (n s : string) :
  String.prefix n s = true <-> exists b, s = n +:+ b.
Proof.
  revert s. induction n as [|c n IH]; intros s.
  - split; [intros _; exists s; reflexivity | destruct s; reflexivity].
  - destruct s as [|c' s]; simpl.
    + split; [discriminate | intros [b Hb]; rewrite append_cons in Hb;
                             discriminate].
    + destruct (ascii_dec c c') as [->|Hne].
      * rewrite IH. split; intros [b Hb]; exists b.
        -- rewrite append_cons, Hb. reflexivity.
        -- rewrite append_cons in Hb. congruence.
      * split; [discriminate|].
        intros [b Hb]. rewrite append_cons in Hb. congruence.
Qed.

(** [contains] is substring search. *)
Lemma contains_spec (n s : string) :
  contains n s = true <-> exists a b, s = a +:+ n +:+ b.
Proof.
  induction s as [|c s IH].
  - change (contains n "") with (String.prefix n "" || false).
    rewrite orb_false_r, prefix_spec. split.
    + intros [b Hb]. exists "", b. exact Hb.
    + intros (a & b & H). destruct a as [|x a].
      * exists b. exact H.
      * rewrite append_cons in H. discriminate.
  - change (contains n (String c s))
      with (String.prefix n (String c s) || contains n s).
    rewrite orb_true_iff, IH, prefix_spec. split.
    + intros [[b Hb] | (a & b & H)].
      * exists "", b. exact Hb.
      * exists (String c a), b. rewrite append_cons, H. reflexivity.
    + intros (a & b & H). destruct a as [|x a].
      * left. exists b. exact H.
      * right. rewrite append_cons in H. injection H as _ H.
        exists a, b. exact H.
Qed.

End Includes.

Section OnError.

Lemma onError_string_message (error : JsVal) (m : string) (st : St) :
  opt_chain error "message" = JStr m -> m <> "" ->
  onError error st
  = if contains "Unauthorized" m
    then (Return (JObj [("status", JStr "error"); ("message", JStr m)]),
          mkSt 401 (translationCache st) (clock st) (calls st))
    else (Return internal_error,
          mkSt 500 (translationCache st) (clock st) (calls st)).
Proof.
  intros Hm Hne. unfold onError, js_or. rewrite Hm.
  assert (truthy (JStr m) = true) as ->.
  { simpl. destruct (String.eqb_spec m ""); [contradiction | reflexivity]. }
  unfold includes. destruct (contains "Unauthorized" m); reflexivity.
Qed.

End OnError.

(** X16.  [onError] answers 500 with the fixed body
    [{status: "error", message: "An internal error occurred."}] whenever
    the error has no message or a string message in which
    ["Unauthorized"] does not occur; it answers 401 and hands the message
    of the error back exactly when ["Unauthorized"] occurs somewhere in
    that message. *)
Theorem onError_status (error : JsVal) (st : St) :
  let message := opt_chain error "message" in
  let answered code :=
    mkSt code (translationCache st) (clock st) (calls st) in
  (truthy message = false ->
   onError error st = (Return internal_error, answered 500))
  /\ (forall m, message = JStr m -> m <> "" ->
        ((exists a b, m = a +:+ "Unauthorized" +:+ b) ->
         onError error st
         = (Return (JObj [("status", JStr "error"); ("message", JStr m)]),
            answered 401))
        /\ (~ (exists a b, m = a +:+ "Unauthorized" +:+ b) ->
            onError error st = (Return internal_error, answered 500))).
Proof.
  intros message answered. subst message answered. split.
  - intros Hm. unfold onError, js_or. rewrite Hm. reflexivity.
  - intros m Hm Hne.
    rewrite (onError_string_message error m st Hm Hne). split; intros H.
    + apply contains_spec in H. rewrite H. reflexivity.
    + destruct (contains "Unauthorized" m) eqn:E; [|reflexivity].
      apply contains_spec in E. contradiction.
Qed.

Lemma onError_status_witness :
  let st := mkSt 200 ∅ Sample.t0 [] in
  onError (JObj [("message", JStr "DB: Unauthorized access")]) st
  = (Return (JObj [("status", JStr "error");
                   ("message", JStr "DB: Unauthorized access")]),
     mkSt 401 ∅ Sample.t0 [])
  /\ onError JUndefined st = (Return internal_error, mkSt 500 ∅ Sample.t0 []).
Proof.
  intros st. split.
  - apply (onError_status (JObj [("message", JStr "DB: Unauthorized access")])
             st); [reflexivity | discriminate |].
    exists "DB: ", " access". reflexivity.
  - apply (onError_status JUndefined st). reflexivity.
Defined.

(** X17.  A failed insert on [POST /track-404] is not caught by the
    handler.  When the store throws, the handler throws the same error
    instead of returning a body (where [/ingest] and [/log] return their
    failure body), it has handed the sanitized row to the store, it
    sends no broadcast, and it leaves [set.status] unassigned. *)
Theorem track_404_insert_failure (env : Env) (request : Request) (st : St)
        (geo e : JsVal) :
  truthy (quota_answer (respond env (quota_check "404_page_tracking" request)))
  = true ->
  respond env (geo_lookup env request) = Return geo ->
  nullish geo = false ->
  let row :=
    replaceUndefinedWithNull
      (notFoundData env request geo (track_404_now env request st)) in
  respond env (clickhouse_insert "not_found_pages" row) = Throw e ->
  fst (track_404 env request st) = Throw e
  /\ inserted (calls (snd (track_404 env request st)))
     = (inserted (calls st) ++ [("not_found_pages", row)])%list
  /\ List.filter is_broadcast (calls (snd (track_404 env request st)))
     = List.filter is_broadcast (calls st)
  /\ set_status (snd (track_404 env request st)) = set_status st.
Proof.
  intros Hq Hgeo Hn row Hins.
  pose proof (track_404_allowed_run env request st geo Hq Hgeo Hn) as Hrun.
  cbv zeta in Hrun. fold row in Hrun. rewrite Hins in Hrun.
  rewrite Hrun. cbn [fst snd].
  split; [reflexivity|]. split; [|split; [|reflexivity]].
  - simpl. rewrite !inserted_app. simpl. rewrite !app_nil_r. reflexivity.
  - simpl. rewrite !List.filter_app. simpl. rewrite !app_nil_r. reflexivity.
Qed.

Lemma track_404_insert_failure_witness :
  let env := Sample.env Sample.allowed Sample.down Sample.echo 40 in
  let request :=
    mkRequest (JObj [("client_id", JStr "c1"); ("path", JStr "/nope")])
              (JStr "Mozilla/5.0") JNull in
  let st := mkSt 200 ∅ Sample.t0 [] in
  fst (track_404 env request st)
  = Throw (JObj [("message", JStr "connect ECONNREFUSED")])
  /\ List.filter is_broadcast (calls (snd (track_404 env request st))) = []
  /\ set_status (snd (track_404 env request st)) = 200.
Proof.
  intros env request st.
  destruct (track_404_insert_failure env request st
              (JObj [("country", JStr "NL"); ("city", JStr "Utrecht")])
              (JObj [("message", JStr "connect ECONNREFUSED")])
              eq_refl eq_refl eq_refl eq_refl)
    as (H1 & _ & H3 & H4).
  split; [exact H1|]. split; [exact H3 | exact H4].
Defined.

(** ** Authentication *)

Section Derive.

Lemma substring_all (t : string) : String.substring 0 (String.length t) t = t.
Proof. induction t as [|c t IH]; simpl; [reflexivity | rewrite IH; reflexivity]. Qed.

Lemma accessToken_bearer path meth (t : string) body :
  accessToken (mkAuthRequest path meth (Some ("Bearer " +:+ t)) body) = JStr t.
Proof.
  unfold accessToken, substring_from. cbn [authorization].
  change ("Bearer " +:+ t)
    with (String "B" (String "e" (String "a" (String "r" (String "e"
           (String "r" (String " " t))))))).
  simpl. rewrite Nat.sub_0_r, substring_all.
  destruct t; reflexivity.
Qed.

Lemma truthy_token (t : string) : t <> "" -> truthy (JStr t) = true.
Proof.
  intros H. simpl. destruct (String.eqb_spec t ""); [contradiction|reflexivity].
Qed.

End Derive.

(** X18.  A bearer token in the [Authorization] header wins over the body:
    on a route that needs the user, a header ["Bearer t"] with a
    non-empty [t] makes [derive] look up [t] and nothing else, and attach
    what that lookup gives, whatever [accessToken] the body carries.  A
    header that does not start with ["Bearer "] (the bare word
    ["Bearer"] included) leaves the token of the body in charge. *)
Theorem derive_bearer_precedence (findFirst : JsVal -> Result JsVal)
        (path meth t : string) (body : JsVal) :
  let request := mkAuthRequest path meth (Some ("Bearer " +:+ t)) body in
  is_public request = false ->
  t <> "" ->
  derive findFirst request
  = (match findFirst (JStr t) with
     | Return userExists => js_or (opt_chain userExists "id") JNull
     | Throw _ => JNull
     end, [JStr t])
  /\ (forall h,
        String.prefix "Bearer " h = false ->
        accessToken (mkAuthRequest path meth (Some h) body)
        = opt_chain body "accessToken").
Proof.
  intros request Hp Hne. split.
  - unfold derive. rewrite Hp. unfold request.
    rewrite accessToken_bearer, (truthy_token t Hne). cbn [negb].
    destruct (findFirst (JStr t)); reflexivity.
  - intros h Hh. unfold accessToken. cbn [authorization auth_body].
    rewrite Hh. reflexivity.
Qed.

Lemma derive_bearer_precedence_witness :
  let findFirst := fun token : JsVal =>
    Return (match token with
            | JStr "abc" => JObj [("id", JStr "u1")]
            | JStr "from-body" => JObj [("id", JStr "u2")]
            | _ => JUndefined
            end) in
  derive findFirst
    (mkAuthRequest "/ingest" "POST" (Some "Bearer abc")
                   (JObj [("accessToken", JStr "from-body")]))
  = (JStr "u1", [JStr "abc"])
  /\ derive findFirst
       (mkAuthRequest "/ingest" "POST" (Some "Bearer")
                      (JObj [("accessToken", JStr "from-body")]))
     = (JStr "u2", [JStr "from-body"]).
Proof.
  intros findFirst. split.
  - apply (derive_bearer_precedence findFirst "/ingest" "POST" "abc"
             (JObj [("accessToken", JStr "from-body")]));
      [reflexivity | discriminate].
  - reflexivity.
Defined.

(** X19.  [derive] never turns a request away and never trusts a token
    by itself.  It makes at most one lookup, none on the public routes
    and on [OPTIONS]; the user id it attaches is null unless the lookup
    of the request's token returned a row with a truthy [id], which is
    then the id attached; a lookup that throws leaves the request
    anonymous. *)
Theorem derive_anonymous_unless_found (findFirst : JsVal -> Result JsVal)
        (request : AuthRequest) :
  let userId := fst (derive findFirst request) in
  let lookups := snd (derive findFirst request) in
  (lookups = [] \/ lookups = [accessToken request])
  /\ (is_public request = true -> userId = JNull /\ lookups = [])
  /\ (truthy (accessToken request) = false ->
      userId = JNull /\ lookups = [])
  /\ (userId <> JNull ->
      exists user,
        findFirst (accessToken request) = Return user
        /\ userId = opt_chain user "id" /\ truthy userId = true
        /\ lookups = [accessToken request])
  /\ (forall e, findFirst (accessToken request) = Throw e -> userId = JNull).
Proof.
  intros userId lookups. subst userId lookups. unfold derive.
  destruct (is_public request) eqn:Hp; simpl.
  { repeat split; auto; try contradiction. }
  destruct (truthy (accessToken request)) eqn:Ht; simpl.
  2:{ repeat split; auto; try discriminate; contradiction. }
  destruct (findFirst (accessToken request)) as [user|e] eqn:Hf; simpl.
  - split; [auto|]. split; [discriminate|]. split; [discriminate|].
    split; [|discriminate].
    unfold js_or. destruct (truthy (opt_chain user "id")) eqn:Hid.
    + intros _. exists user. rewrite Hid. auto.
    + contradiction.
  - split; [auto|]. split; [discriminate|]. split; [discriminate|].
    split; [contradiction | reflexivity].
Qed.

(** ** Query client *)

Section QueryClient.

Lemma getQueryClient_browser_set c n m :
  getQueryClient_times false n (mkClientState (Some c) m)
  = (repeat c n, mkClientState (Some c) m).
Proof.
  induction n as [|n IH]; simpl; [reflexivity|].
  rewrite IH. reflexivity.
Qed.

End QueryClient.

(** X20.  In the browser [getQueryClient] hands out one client for good:
    any number of calls in a row return the same client, the one already
    kept or else the one made by the first call, and at most one client
    is ever made. *)
Theorem getQueryClient_browser_singleton (n : nat) (s : ClientState) :
  let client := default (made s) (browserQueryClient s) in
  fst (getQueryClient_times false n s) = repeat client n
  /\ (made (snd (getQueryClient_times false n s)) <= S (made s))%nat
  /\ (0 < n ->
      browserQueryClient (snd (getQueryClient_times false n s))
      = Some client)%nat.
Proof.
  destruct s as [[c|] m]; simpl.
  - rewrite getQueryClient_browser_set. simpl. repeat split; auto.
  - destruct n as [|n]; simpl; [repeat split; auto; lia|].
    rewrite getQueryClient_browser_set. simpl. repeat split; auto.
Qed.

Lemma getQueryClient_browser_singleton_witness :
  fst (getQueryClient_times false 3 (mkClientState None 0)) = [0; 0; 0]%nat
  /\ browserQueryClient (snd (getQueryClient_times false 3
                                (mkClientState None 0))) = Some 0%nat.
Proof.
  destruct (getQueryClient_browser_singleton 3 (mkClientState None 0))
    as (H1 & _ & H3).
  split; [exact H1 | apply H3; lia].
Defined.

(** X21.  On the server [getQueryClient] makes a new client at every
    call and keeps none: [n] calls in a row return [n] clients that are
    all different, and the browser slot is left as it was. *)
Theorem getQueryClient_server_fresh (n : nat) (s : ClientState) :
  fst (getQueryClient_times true n s) = seq (made s) n
  /\ NoDup (fst (getQueryClient_times true n s))
  /\ browserQueryClient (snd (getQueryClient_times true n s))
     = browserQueryClient s
  /\ made (snd (getQueryClient_times true n s)) = (made s + n)%nat.
Proof.
  assert (H : forall n s,
             getQueryClient_times true n s
             = (seq (made s) n,
                mkClientState (browserQueryClient s) (made s + n))).
  { clear. induction n as [|n IH]; intros s; simpl.
    - destruct s as [b m]. simpl. rewrite Nat.add_0_r. reflexivity.
    - rewrite IH. simpl. repeat f_equal. lia. }
  rewrite H. simpl. repeat split; auto.
  apply NoDup_ListNoDup, List.seq_NoDup.
Qed.

(** ** Broadcasts and the response *)

Section Broadcasts.

Variable env : Env.
Variable request : Request.
Variable st : St.
Variable r : Result JsVal.

Lemma errorData_with_broadcast geo now :
  errorData (with_broadcast r env) request geo now
  = errorData env request geo now.
Proof. reflexivity. Qed.

Lemma ingest_now_with_broadcast :
  ingest_now (with_broadcast r env) request st = ingest_now env request st.
Proof. reflexivity. Qed.

Lemma respond_insert_with_broadcast t row :
  respond (with_broadcast r env) (clickhouse_insert t row)
  = respond env (clickhouse_insert t row).
Proof. reflexivity. Qed.

Lemma ingest_broadcast_blind :
  same_outcome (ingest (with_broadcast r env) request st)
               (ingest env request st).
Proof.
  unfold same_outcome.
  destruct (truthy (quota_answer (respond env (quota_check "error" request))))
    eqn:Hq.
  - destruct (respond env (geo_lookup env request)) as [geo|e] eqn:Hgeo.
    + destruct (nullish geo) eqn:Hn.
      * destruct (ingest_geo_failure (with_broadcast r env) request st Hq)
          as [_ H']. destruct (ingest_geo_failure env request st Hq) as [_ H].
        rewrite (H' geo Hgeo Hn), (H geo Hgeo Hn). repeat split.
      * destruct (ingest_allowed (with_broadcast r env) request st geo
                    Hq Hgeo Hn) as (Hi' & Hs' & Ht' & Hr').
        destruct (ingest_allowed env request st geo Hq Hgeo Hn)
          as (Hi & Hs & Ht & Hr).
        rewrite errorData_with_broadcast, ingest_now_with_broadcast in Hi'.
        setoid_rewrite errorData_with_broadcast in Ht'.
        setoid_rewrite errorData_with_broadcast in Hr'.
        setoid_rewrite ingest_now_with_broadcast in Ht'.
        setoid_rewrite ingest_now_with_broadcast in Hr'.
        setoid_rewrite respond_insert_with_broadcast in Ht'.
        setoid_rewrite respond_insert_with_broadcast in Hr'.
        rewrite Hi', Hi, Hs', Hs. split; [|split; reflexivity].
        destruct (respond env
                    (clickhouse_insert "errors"
                       (replaceUndefinedWithNull
                          (errorData env request geo
                             (ingest_now env request st))))) as [v|x] eqn:Hins.
        -- rewrite (Hr' v eq_refl), (Hr v eq_refl). reflexivity.
        -- rewrite (Ht' x eq_refl), (Ht x eq_refl). reflexivity.
    + destruct (ingest_geo_failure (with_broadcast r env) request st Hq)
        as [H' _]. destruct (ingest_geo_failure env request st Hq) as [H _].
      rewrite (H' e Hgeo), (H e Hgeo). repeat split.
  - destruct (ingest_rejected (with_broadcast r env) request st Hq)
      as (H1' & H2' & _ & H4').
    destruct (ingest_rejected env request st Hq) as (H1 & H2 & _ & H4).
    rewrite H1', H1, H2', H2, H4', H4. repeat split.
Qed.

Lemma log_broadcast_blind :
  same_outcome (log (with_broadcast r env) request st) (log env request st).
Proof.
  unfold same_outcome.
  destruct (truthy (quota_answer (respond env (quota_check "log" request))))
    eqn:Hq.
  - rewrite (log_allowed_run (with_broadcast r env) request st Hq),
      (log_allowed_run env request st Hq).
    change (respond (with_broadcast r env)
              (clickhouse_insert "logs"
                 (logData (with_broadcast r env) request
                    (log_now (with_broadcast r env) request st))))
      with (respond env
              (clickhouse_insert "logs"
                 (logData env request (log_now env request st)))).
    destruct (respond env _) as [v|x];
      [destruct (truthy (userId request))|]; repeat split.
  - destruct (log_rejected (with_broadcast r env) request st Hq)
      as (H1' & H2' & _ & H4').
    destruct (log_rejected env request st Hq) as (H1 & H2 & _ & H4).
    rewrite H1', H1, H2', H2, H4', H4. repeat split.
Qed.

Lemma track_404_broadcast_blind :
  same_outcome (track_404 (with_broadcast r env) request st)
               (track_404 env request st).
Proof.
  unfold same_outcome.
  destruct (truthy (quota_answer
                      (respond env (quota_check "404_page_tracking" request))))
    eqn:Hq.
  - destruct (respond env (geo_lookup env request)) as [geo|e] eqn:Hgeo.
    + destruct (nullish geo) eqn:Hn.
      * destruct (track_404_geo_failure (with_broadcast r env) request st Hq)
          as [_ H'].
        destruct (track_404_geo_failure env request st Hq) as [_ H].
        rewrite (H' geo Hgeo Hn), (H geo Hgeo Hn). repeat split.
      * rewrite (track_404_allowed_run (with_broadcast r env) request st geo
                   Hq Hgeo Hn),
          (track_404_allowed_run env request st geo Hq Hgeo Hn).
        change (respond (with_broadcast r env)
                  (clickhouse_insert "not_found_pages"
                     (replaceUndefinedWithNull
                        (notFoundData (with_broadcast r env) request geo
                           (track_404_now (with_broadcast r env) request st)))))
          with (respond env
                  (clickhouse_insert "not_found_pages"
                     (replaceUndefinedWithNull
                        (notFoundData env request geo
                           (track_404_now env request st))))).
        destruct (respond env _) as [v|x]; repeat split.
    + destruct (track_404_geo_failure (with_broadcast r env) request st Hq)
        as [H' _].
      destruct (track_404_geo_failure env request st Hq) as [H _].
      rewrite (H' e Hgeo), (H e Hgeo). repeat split.
  - destruct (track_404_rejected (with_broadcast r env) request st Hq)
      as (H1' & H2' & _ & H4').
    destruct (track_404_rejected env request st Hq) as (H1 & H2 & _ & H4).
    rewrite H1', H1, H2', H2, H4', H4. repeat split.
Qed.

End Broadcasts.

(** X22.  Broadcasts are best effort: whether the real-time channel
    accepts a broadcast, rejects it or throws, each of the three ingestion
    handlers gives the same response, leaves [set.status] the same and
    hands the same rows to the store. *)
Theorem broadcast_outcome_is_invisible (env : Env) (request : Request)
        (st : St) (r : Result JsVal) :
  same_outcome (ingest (with_broadcast r env) request st)
               (ingest env request st)
  /\ same_outcome (log (with_broadcast r env) request st)
                  (log env request st)
  /\ same_outcome (track_404 (with_broadcast r env) request st)
                  (track_404 env request st).
Proof.
  split; [apply ingest_broadcast_blind|].
  split; [apply log_broadcast_blind | apply track_404_broadcast_blind].
Qed.

(** ** What reaches the store *)

Section StoredRows.

Lemma append_not_empty (a b : string) (c : ascii) : a +:+ String c b <> "".
Proof. destruct a; [|rewrite append_cons]; discriminate. Qed.

(** The normalizer returns null or a non-empty string. *)
Lemma toCHDateTime64_null_or_string env date :
  toCHDateTime64 env date = JNull
  \/ exists s, toCHDateTime64 env date = JStr s /\ s <> "".
Proof.
  unfold toCHDateTime64.
  destruct (negb (date_truthy date)); [left; reflexivity|].
  destruct (new_Date env date) as [d|]; [|left; reflexivity].
  right. eexists. split; [reflexivity|].
  rewrite dash_cons. apply append_not_empty.
Qed.

Lemma toCHDateTime64_now env st :
  exists s, toCHDateTime64 env (now_in env st) = JStr s /\ s <> "".
Proof.
  unfold toCHDateTime64, now_in. simpl.
  eexists. split; [reflexivity|].
  rewrite dash_cons. apply append_not_empty.
Qed.

Lemma truthy_string s : s <> "" -> truthy (JStr s) = true.
Proof.
  intros H. simpl. destruct (String.eqb_spec s ""); [contradiction|reflexivity].
Qed.

(** [toCHDateTime64(x) || toCHDateTime64(now)] is a non-empty string. *)
Lemma occurrence_is_string env date st :
  exists s,
    js_or (toCHDateTime64 env date) (toCHDateTime64 env (now_in env st))
    = JStr s /\ s <> "".
Proof.
  destruct (toCHDateTime64_now env st) as (n & Hn & Hne).
  destruct (toCHDateTime64_null_or_string env date) as [H|(s & H & Hs)];
    rewrite H; unfold js_or.
  - simpl. exists n. auto.
  - rewrite (truthy_string _ Hs). exists s. auto.
Qed.

Lemma assoc_not_in k l : ~ In k (keys l) -> assoc k l = None.
Proof.
  induction l as [|[k' v] l IH]; simpl; [reflexivity|].
  intros H. destruct (String.eqb_spec k k') as [->|Hne].
  - exfalso. apply H. left. reflexivity.
  - apply IH. intros Hin. apply H. right. exact Hin.
Qed.

Lemma keys_rev l : keys (rev l) = rev (keys l).
Proof. unfold keys. apply map_rev. Qed.

Lemma assoc_rev_not_in k l : ~ In k (keys l) -> assoc k (rev l) = None.
Proof.
  intros H. apply assoc_not_in. rewrite keys_rev. rewrite <- in_rev. exact H.
Qed.

(** In an object whose keys are all different, reading from the back
    finds what reading from the front finds. *)
Lemma assoc_rev_unique k l :
  List.NoDup (keys l) -> assoc k (rev l) = assoc k l.
Proof.
  induction l as [|[k' v] l IH]; simpl; [reflexivity|].
  intros H. inversion H as [|? ? Hnot Hrest]; subst.
  rewrite assoc_app, (IH Hrest). simpl.
  destruct (String.eqb_spec k k') as [->|Hne].
  - rewrite (assoc_not_in _ _ Hnot). reflexivity.
  - destruct (assoc k l); reflexivity.
Qed.

End StoredRows.

(** X23.  What the server stamps on an error row cannot be set by the
    body: in the row that [POST /ingest] stores, [ip_address] is the
    address taken from the request and [user_agent] the header (or the
    empty string), [created_at] and [updated_at] are both the time of the
    request, a non-empty string; [first_occurrence] and [last_occurrence]
    are the normalized value of the body when the normalizer can read
    it and the time of the request otherwise, and [resolved_at] is the
    normalized value of the body, null when there is none. *)
Theorem ingest_row_server_stamped (env : Env) (request : Request) (st : St)
        (geo : JsVal) :
  truthy (quota_answer (respond env (quota_check "error" request))) = true ->
  respond env (geo_lookup env request) = Return geo ->
  nullish geo = false ->
  let normalized k := toCHDateTime64 env (DVal (get_prop (body request) k)) in
  exists row now,
    inserted (calls (snd (ingest env request st)))
    = (inserted (calls st) ++ [("errors", row)])%list
    /\ toCHDateTime64 env (ingest_now env request st) = JStr now
    /\ now <> ""
    /\ get_prop row "created_at" = JStr now
    /\ get_prop row "updated_at" = JStr now
    /\ Forall (fun k =>
                 (forall s, normalized k = JStr s -> get_prop row k = JStr s)
                 /\ (normalized k = JNull -> get_prop row k = JStr now)
                 /\ (normalized k = JNull \/ exists s, normalized k = JStr s))
              ["first_occurrence"; "last_occurrence"]
    /\ get_prop row "resolved_at" = normalized "resolved_at"
    /\ get_prop row "ip_address"
       = sanitized_prop (extractIpFromRequest env request)
    /\ get_prop row "user_agent"
       = sanitized_prop (js_or (user_agent_header request) (JStr "")).
Proof.
  intros Hq Hgeo Hn normalized.
  destruct (ingest_allowed env request st geo Hq Hgeo Hn) as (Hins & _).
  destruct (toCHDateTime64_now env
              (after_call env (geo_lookup env request)
                 (after_call env (quota_check "error" request) st)))
    as (now & Hnow & Hne).
  fold (ingest_now env request st) in Hnow.
  assert (Hocc : forall x,
             (forall s, toCHDateTime64 env (DVal x) = JStr s ->
                sanitized_prop
                  (js_or (toCHDateTime64 env (DVal x))
                         (toCHDateTime64 env (ingest_now env request st)))
                = JStr s)
             /\ (toCHDateTime64 env (DVal x) = JNull ->
                 sanitized_prop
                   (js_or (toCHDateTime64 env (DVal x))
                          (toCHDateTime64 env (ingest_now env request st)))
                 = JStr now)
             /\ (toCHDateTime64 env (DVal x) = JNull
                 \/ exists s, toCHDateTime64 env (DVal x) = JStr s)).
  { intros x.
    destruct (toCHDateTime64_null_or_string env (DVal x))
      as [H|(s & H & Hs)]; rewrite H.
    - split; [discriminate|]. split; [|left; reflexivity].
      intros _. rewrite Hnow. reflexivity.
    - split; [|split; [discriminate | right; eauto]].
      intros s' [= <-]. unfold js_or. rewrite (truthy_string _ Hs).
      reflexivity. }
  eexists. exists now. split; [exact Hins|].
  split; [exact Hnow|]. split; [exact Hne|].
  split; [row_prop "created_at"; rewrite Hnow; reflexivity|].
  split; [row_prop "updated_at"; rewrite Hnow; reflexivity|].
  split.
  { constructor; [|constructor; [|constructor]].
    - row_prop "first_occurrence". apply Hocc.
    - row_prop "last_occurrence". apply Hocc. }
  split.
  { row_prop "resolved_at". subst normalized. cbv beta.
    destruct (toCHDateTime64_null_or_string env
                (DVal (get_prop (body request) "resolved_at")))
      as [H|(s & H & _)]; rewrite H; reflexivity. }
  split; [row_prop "ip_address"; reflexivity|].
  row_prop "user_agent". reflexivity.
Qed.

(** X23 at work: a body that names an address, a creation time and a
    first occurrence (as a number of milliseconds) is stored with the
    address and the time of the request, and with the first occurrence it
    gave; the last occurrence, which it did not give, is the time of the
    request. *)
Lemma ingest_row_server_stamped_witness :
  let env := Sample.env Sample.allowed Sample.ok Sample.echo 40 in
  let request :=
    mkRequest (JObj [("client_id", JStr "c1"); ("message", JStr "boom");
                     ("ip_address", JStr "10.0.0.1");
                     ("created_at", JStr "1999-01-01 00:00:00.000");
                     ("first_occurrence", JNum 86400000)])
              (JStr "Mozilla/5.0") JNull in
  let st := mkSt 200 ∅ Sample.t0 [] in
  exists row,
    inserted (calls (snd (ingest env request st))) = [("errors", row)]
    /\ get_prop row "created_at" = JStr "2024-01-02 03:04:05.086"
    /\ get_prop row "ip_address" = JStr "203.0.113.7"
    /\ get_prop row "first_occurrence" = JStr "1970-01-02 00:00:00.000"
    /\ get_prop row "last_occurrence" = JStr "2024-01-02 03:04:05.086".
Proof.
  intros env request st.
  destruct (ingest_row_server_stamped env request st
              (JObj [("country", JStr "NL"); ("city", JStr "Utrecht")])
              eq_refl eq_refl eq_refl)
    as (row & now & Hins & Hnow & _ & Hc & _ & Hocc & _ & Hip & _).
  assert (Hnow' : now = "2024-01-02 03:04:05.086")
    by (injection Hnow as <-; reflexivity).
  exists row. split; [exact Hins|].
  split; [rewrite Hc, Hnow'; reflexivity|].
  split; [exact Hip|].
  inversion Hocc as [|? ? (Hf & _) Hrest]; subst.
  inversion Hrest as [|? ? (_ & Hl & _) _]; subst.
  split; [apply Hf; reflexivity|].
  rewrite (Hl eq_refl). reflexivity.
Defined.

(** X24.  A log row is the body plus two stamps.  In the row that
    [POST /log] stores, every property of the body other than
    [created_at] has the value the body gave it, [created_at] is the time
    of the request, a non-empty string, whatever [created_at] the body
    holds, and [id] is the generated id unless the body has an [id] of
    its own. *)
Theorem log_row_keeps_body (env : Env) (request : Request) (st : St)
        (fs : list (string * JsVal)) :
  body request = JObj fs ->
  List.NoDup (keys fs) ->
  truthy (quota_answer (respond env (quota_check "log" request))) = true ->
  exists row now,
    inserted (calls (snd (log env request st)))
    = (inserted (calls st) ++ [("logs", row)])%list
    /\ (forall k v, k <> "created_at" -> assoc k fs = Some v ->
          get_prop row k = v)
    /\ (assoc "id" fs = None -> get_prop row "id" = randomUUID env)
    /\ toCHDateTime64 env (log_now env request st) = JStr now
    /\ now <> ""
    /\ get_prop row "created_at" = JStr now.
Proof.
  intros Hb Hnd Hq.
  destruct (log_allowed env request st Hq) as (Hins & _).
  destruct (toCHDateTime64_now env
              (after_call env (quota_check "log" request) st))
    as (now & Hnow & Hne).
  fold (log_now env request st) in Hnow.
  eexists. exists now. split; [exact Hins|].
  unfold logData. rewrite Hb. cbn [spread get_prop].
  split; [|split; [|split; [exact Hnow | split; [exact Hne|]]]].
  - intros k v Hk Hv.
    rewrite assoc_obj_literal, !rev_app_distr, !assoc_app.
    cbn [rev app assoc].
    destruct (String.eqb_spec k "created_at") as [->|_]; [contradiction|].
    rewrite (assoc_rev_unique _ _ Hnd), Hv. reflexivity.
  - intros Hid.
    rewrite assoc_obj_literal, !rev_app_distr, !assoc_app.
    rewrite (assoc_rev_unique _ _ Hnd), Hid. reflexivity.
  - rewrite assoc_obj_literal, !rev_app_distr, !assoc_app.
    exact Hnow.
Qed.

(** X24 at work: a log body that brings a [created_at] of its own is
    stored with the time of the request. *)
Lemma log_row_keeps_body_witness :
  let env := Sample.env Sample.allowed Sample.ok Sample.echo 40 in
  let fs :=
    [("client_id", JStr "c1"); ("message", JStr "hi");
     ("created_at", JStr "1999-01-01 00:00:00.000")] in
  let request := mkRequest (JObj fs) JNull JNull in
  let st := mkSt 200 ∅ Sample.t0 [] in
  exists row,
    inserted (calls (snd (log env request st))) = [("logs", row)]
    /\ get_prop row "message" = JStr "hi"
    /\ get_prop row "id" = randomUUID env
    /\ get_prop row "created_at" = JStr "2024-01-02 03:04:05.046".
Proof.
  intros env fs request st.
  assert (Hnd : List.NoDup (keys fs)).
  { repeat constructor; simpl; intuition discriminate. }
  destruct (log_row_keeps_body env request st fs eq_refl Hnd eq_refl)
    as (row & now & Hins & Hk & Hid & Hnow & _ & Hc).
  exists row. split; [exact Hins|]. split; [|split].
  - apply Hk; [discriminate | reflexivity].
  - apply Hid. reflexivity.
  - rewrite Hc. injection Hnow as <-. reflexivity.
Defined.

(** X25.  In the row that [POST /ingest] stores, every property of the
    body that the handler does not write itself is kept, sanitized; so a
    body with an [id] decides the id of the row, the generated id being
    used only when the body has none, and the success response reports
    the id that was stored. *)
Theorem ingest_row_keeps_body (env : Env) (request : Request) (st : St)
        (geo : JsVal) (fs : list (string * JsVal)) :
  body request = JObj fs ->
  List.NoDup (keys fs) ->
  truthy (quota_answer (respond env (quota_check "error" request))) = true ->
  respond env (geo_lookup env request) = Return geo ->
  nullish geo = false ->
  exists row,
    inserted (calls (snd (ingest env request st)))
    = (inserted (calls st) ++ [("errors", row)])%list
    /\ (forall k v, ~ In k ingest_rewritten_keys -> assoc k fs = Some v ->
          get_prop row k = sanitized_prop v)
    /\ (assoc "id" fs = None ->
        get_prop row "id" = sanitized_prop (randomUUID env))
    /\ (forall x, respond env (clickhouse_insert "errors" row) = Return x ->
          fst (ingest env request st) = Return (success (get_prop row "id"))).
Proof.
  intros Hb Hnd Hq Hgeo Hn.
  destruct (ingest_allowed env request st geo Hq Hgeo Hn)
    as (Hins & _ & _ & Hok).
  eexists. split; [exact Hins|]. split; [|split; [|exact Hok]].
  - intros k v Hk Hv. unfold errorData. apply get_prop_sanitized.
    rewrite assoc_obj_literal, !rev_app_distr, <- app_assoc, assoc_app.
    rewrite (assoc_rev_not_in k (errorData_after_body _ _ _ _)) by exact Hk.
    rewrite Hb. cbn [spread].
    rewrite assoc_app, (assoc_rev_unique _ _ Hnd), Hv. reflexivity.
  - intros Hid. unfold errorData. apply get_prop_sanitized.
    rewrite assoc_obj_literal, !rev_app_distr, <- app_assoc, assoc_app.
    rewrite (assoc_rev_not_in "id" (errorData_after_body _ _ _ _))
      by (cbn; intuition discriminate).
    rewrite Hb. cbn [spread].
    rewrite assoc_app, (assoc_rev_unique _ _ Hnd), Hid. reflexivity.
Qed.

Lemma ingest_row_keeps_body_witness :
  let env := Sample.env Sample.allowed Sample.ok Sample.echo 40 in
  let fs :=
    [("client_id", JStr "c1"); ("message", JStr "boom");
     ("id", JStr "chosen-by-caller")] in
  let request := mkRequest (JObj fs) (JStr "Mozilla/5.0") JNull in
  let st := mkSt 200 ∅ Sample.t0 [] in
  exists row,
    inserted (calls (snd (ingest env request st))) = [("errors", row)]
    /\ get_prop row "id" = JStr "chosen-by-caller"
    /\ get_prop row "message" = JStr "boom".
Proof.
  intros env fs request st.
  assert (Hnd : List.NoDup (keys fs)).
  { repeat constructor; simpl; intuition discriminate. }
  destruct (ingest_row_keeps_body env request st
              (JObj [("country", JStr "NL"); ("city", JStr "Utrecht")])
              fs eq_refl Hnd eq_refl eq_refl eq_refl)
    as (row & Hins & Hk & _).
  exists row. split; [exact Hins|]. split.
  - apply (Hk "id" (JStr "chosen-by-caller"));
      [cbn; intuition discriminate | reflexivity].
  - apply (Hk "message" (JStr "boom"));
      [cbn; intuition discriminate | reflexivity].
Defined.

(** X26.  The outside calls of [POST /track-404] past the quota gate, in
    order: the quota check, the geo lookup, the insert of the sanitized
    record and then, only when the insert returned, the [new-404]
    broadcast of the stored row to the channel of the client id. *)
Theorem track_404_call_order (env : Env) (request : Request) (st : St)
        (geo : JsVal) :
  truthy (quota_answer (respond env (quota_check "404_page_tracking" request)))
  = true ->
  respond env (geo_lookup env request) = Return geo ->
  nullish geo = false ->
  let row :=
    replaceUndefinedWithNull
      (notFoundData env request geo (track_404_now env request st)) in
  calls (snd (track_404 env request st))
  = (calls st
     ++ [quota_check "404_page_tracking" request; geo_lookup env request;
         clickhouse_insert "not_found_pages" row]
     ++ match respond env (clickhouse_insert "not_found_pages" row) with
        | Return _ =>
            [channel_send (get_prop (body request) "client_id") "new-404" row]
        | Throw _ => []
        end)%list.
Proof.
  intros Hq Hgeo Hn row.
  rewrite (track_404_allowed_run env request st geo Hq Hgeo Hn). fold row.
  destruct (respond env (clickhouse_insert "not_found_pages" row)) as [v|e];
    simpl; rewrite <- ?app_assoc; reflexivity.
Qed.

Lemma track_404_call_order_witness :
  let env := Sample.env Sample.allowed Sample.ok Sample.echo 40 in
  let request :=
    mkRequest (JObj [("client_id", JStr "c1"); ("path", JStr "/nope")])
              (JStr "Mozilla/5.0") JNull in
  let st := mkSt 200 ∅ Sample.t0 [] in
  exists row,
    calls (snd (track_404 env request st))
    = [Autumn_check "404_page_tracking" (JStr "c1");
       getGeoData (JStr "203.0.113.7");
       clickhouse_insert "not_found_pages" row;
       channel_send (JStr "c1") "new-404" row].
Proof.
  intros env request st. eexists.
  rewrite (track_404_call_order env request st
             (JObj [("country", JStr "NL"); ("city", JStr "Utrecht")])
             eq_refl eq_refl eq_refl).
  reflexivity.
Defined.

(** X27.  Past the quota gate [POST /log] always answers with a body and
    never assigns [set.status]: the success body with the id of the row
    when the insert returned, and the body
    [{status: "error", message: "Failed to process log"}] when the insert
    threw, in which case nothing is broadcast. *)
Theorem log_responses (env : Env) (request : Request) (st : St) :
  truthy (quota_answer (respond env (quota_check "log" request))) = true ->
  let row := logData env request (log_now env request st) in
  set_status (snd (log env request st)) = set_status st
  /\ (forall v, respond env (clickhouse_insert "logs" row) = Return v ->
        fst (log env request st) = Return (success (get_prop row "id")))
  /\ (forall e, respond env (clickhouse_insert "logs" row) = Throw e ->
        fst (log env request st) = Return (failure "Failed to process log")
        /\ List.filter is_broadcast (calls (snd (log env request st)))
           = List.filter is_broadcast (calls st)).
Proof.
  intros Hq row.
  rewrite (log_allowed_run env request st Hq). fold row.
  destruct (respond env (clickhouse_insert "logs" row)) as [v|e].
  - split; [destruct (truthy (userId request)); reflexivity|].
    split; [reflexivity | discriminate].
  - split; [reflexivity|]. split; [discriminate|].
    intros _ _. split; [reflexivity|].
    simpl. rewrite !List.filter_app. simpl. rewrite !app_nil_r. reflexivity.
Qed.

Lemma log_responses_witness :
  let env := Sample.env Sample.allowed Sample.down Sample.echo 40 in
  let request :=
    mkRequest (JObj [("client_id", JStr "c1"); ("message", JStr "hi")])
              JNull (JStr "u1") in
  let st := mkSt 200 ∅ Sample.t0 [] in
  set_status (snd (log env request st)) = 200
  /\ fst (log env request st) = Return (failure "Failed to process log").
Proof.
  intros env request st.
  destruct (log_responses env request st eq_refl) as (H1 & _ & H3).
  split; [exact H1|].
  apply (H3 (JObj [("message", JStr "connect ECONNREFUSED")])). reflexivity.
Defined.
